(** * Chat subsystem of the marketplace backend: realtime gateway and REST facade

    A shallow embedding of the socket handlers of the server entry point
    ([io.on('connection', ...)]) and of the chat router
    ([POST /conversations], [GET|POST /conversations/:conversationId/messages]),
    together with the [Conversation] schema of [models/Conversation.js].

    Conventions.
    - An object id is kept as the text [toString()] gives for it: 24
      hexadecimal digits in lower case. The text of a request (a URL segment,
      a body field, a socket payload) may spell the same id with capitals;
      mongoose casts it wherever it meets an id of a schema, in a query or in
      a document to be written, and [canonical] is that cast. Where the code
      uses the text of the request as it is (the name of a room, the
      comparison with the caller's own id), so does the model.
    - A collection is the list of its documents in insertion order.
    - Clock readings ([Date.now()], used by the schema option
      [timestamps: true]) and freshly generated ids are inputs of the handler
      that consumes them.
    - Store failures (a rejected database promise) are outside the model; the
      exceptions the handlers can raise by themselves (a cast error on a
      malformed id, [trim] applied to a non-string) are modelled. *)

From Stdlib Require Import ZArith Ascii String List Sorting.Sorted Permutation.
From stdpp Require Import gmap strings list sorting pretty.

Local Open Scope string_scope.
Local Open Scope Z_scope.

(** ** JavaScript values that reach the handlers *)

Module Js.

(** Values a JSON socket payload field can hold. [JNum n] is an integer
    that prints in full (below 1e21 in magnitude). [JObject] stands for a
    plain object that is not taken for an id anywhere: truthy, not a string,
    without [_id], query operator or [toString] of its own. Arrays, and
    objects that mongoose casts to an id or reads as a query, are not
    modelled. *)
Inductive value :=
| JUndefined
| JNull
| JBool (b : bool)
| JNum (n : Z)
| JStr (s : string)
| JObject.

(** [!!v] *)
Definition truthy (v : value) : bool :=
  match v with
  | JUndefined | JNull => false
  | JBool b => b
  | JNum n => negb (n =? 0)
  | JStr s => negb (String.eqb s "")
  | JObject => true
  end.

(** White space of [String.prototype.trim] among the code units below 256:
    TAB, LF, VT, FF, CR, SP and NBSP. *)
Definition is_ws (a : ascii) : bool :=
  let n := N_of_ascii a in
  ((9 <=? n) && (n <=? 13) || (n =? 32) || (n =? 160))%N.

Fixpoint trimStart (s : string) : string :=
  match s with
  | EmptyString => EmptyString
  | String a r => if is_ws a then trimStart r else s
  end.

Fixpoint trimEnd (s : string) : string :=
  match s with
  | EmptyString => EmptyString
  | String a r =>
      match trimEnd r with
      | EmptyString => if is_ws a then EmptyString else String a EmptyString
      | r' => String a r'
      end
  end.

(** [s.trim()] *)
Definition trim (s : string) : string := trimEnd (trimStart s).

(** [v.toString()] for the values that have one; used on truthy values
    only, so [undefined] and [null] never reach it in the handlers. *)
Definition toString (v : value) : string :=
  match v with
  | JUndefined => "undefined"
  | JNull => "null"
  | JBool true => "true"
  | JBool false => "false"
  | JNum n => pretty n
  | JStr s => s
  | JObject => "[object Object]"
  end.

End Js.

(** ** Object ids *)

Definition is_hex (a : ascii) : bool :=
  let n := N_of_ascii a in
  ((48 <=? n) && (n <=? 57) || (65 <=? n) && (n <=? 70)
   || (97 <=? n) && (n <=? 102))%N.

Fixpoint all_hex (s : string) : bool :=
  match s with
  | EmptyString => true
  | String a r => is_hex a && all_hex r
  end.

(** [mongoose.Types.ObjectId.isValid] on a string: 24 hexadecimal digits. *)
Definition isValid (s : string) : bool :=
  (String.length s =? 24)%nat && all_hex s.

(** The text of the object id a well-formed string is cast to: hexadecimal
    digits are read without regard to case and printed in lower case. *)
Definition lower_hex (a : ascii) : ascii :=
  let n := N_of_ascii a in
  if ((65 <=? n) && (n <=? 70))%N then ascii_of_N (n + 32) else a.

Fixpoint canonical (s : string) : string :=
  match s with
  | EmptyString => EmptyString
  | String a r => String (lower_hex a) (canonical r)
  end.

(** ** Documents and collections *)

(** Modelled from the spec: the [User] model is not among the sources; a user
    is an identity with name, email and photo reference, the fields the
    handlers select with [populate(..., 'name email photoURL')]. [u_oid] is
    the object id [_id], in any spelling of its digits; the handlers read it
    through [toString()], which is [u_id]. *)
Record User := {
  u_oid : string;
  u_name : string;
  u_email : string;
  u_photoURL : string
}.

(** [user._id.toString()] *)
Definition u_id (u : User) : string := canonical (u_oid u).

(** The fields of [models/Post.js] that the chat router reads. *)
Record Post := {
  p_id : string;
  p_title : string;
  p_images : list string;
  p_author : string;
  p_authorName : string
}.

(** [lastMessage] of the conversation schema: [content] defaults to the empty
    string, [sender] and [createdAt] have no default. *)
Record LastMessage := {
  lm_content : string;
  lm_sender : option string;
  lm_createdAt : option Z
}.

(** [models/Conversation.js], with the two stamps of [timestamps: true]. *)
Record Conversation := {
  conv_id : string;
  participants : list string;
  post : option string;
  lastMessage : LastMessage;
  conv_createdAt : Z;
  updatedAt : Z
}.

(** Modelled from the spec: the [Message] model is not among the sources; a
    message has an id, its conversation, its sender, a content, the set
    [readBy] and the immutable [createdAt] that orders a conversation. The
    field names are those the handlers pass to [Message.create]. *)
Record Message := {
  msg_id : string;
  conversation : string;
  sender : string;
  content : string;
  readBy : list string;
  createdAt : Z
}.

Record Store := {
  users : list User;
  posts : list Post;
  conversations : list Conversation;
  messages : list Message
}.

Global Instance User_eq_dec : EqDecision User.
Proof. solve_decision. Defined.
Global Instance Post_eq_dec : EqDecision Post.
Proof. solve_decision. Defined.
Global Instance LastMessage_eq_dec : EqDecision LastMessage.
Proof. solve_decision. Defined.
Global Instance Conversation_eq_dec : EqDecision Conversation.
Proof. solve_decision. Defined.
Global Instance Message_eq_dec : EqDecision Message.
Proof. solve_decision. Defined.

(** ** Exceptions inside a [try] block *)

Inductive exn :=
| CastError   (* mongoose could not cast a value to an object id *)
| TypeError.  (* a method called on a value that does not have it *)

Definition throws (A : Type) : Type := exn + A.

Definition throw {A} (e : exn) : throws A := inl e.

Global Instance throws_ret : MRet throws := fun _ a => inr a.
Global Instance throws_bind : MBind throws := fun _ _ k m =>
  match m with
  | inl e => inl e
  | inr a => k a
  end.

(** [content.trim()] where [content] came from JSON: only strings have the
    method. *)
Definition js_trim (v : Js.value) : throws string :=
  match v with
  | Js.JStr s => mret (Js.trim s)
  | _ => throw TypeError
  end.

(** [!content || !content.trim()], the blank test both send paths start
    with; [||] does not evaluate [trim] on a falsy value. *)
Definition blank_content (v : Js.value) : throws bool :=
  if negb (Js.truthy v) then mret true
  else t ← js_trim v; mret (String.eqb t "").

(** ** Queries *)

(** [User.findById(id)] with [id] a well-formed string: the query casts it
    and finds the document with that object id. *)
Definition User_findById (id : string) (db : Store) : option User :=
  List.find (fun u => String.eqb (u_id u) (canonical id)) (users db).

Definition Post_findById (id : string) (db : Store) : option Post :=
  List.find (fun p => String.eqb (p_id p) (canonical id)) (posts db).

(** [Conversation.findById(id)] with [id] a string already known to be a
    well-formed id. *)
Definition Conversation_lookup (id : string) (db : Store) : option Conversation :=
  List.find (fun c => String.eqb (conv_id c) (canonical id)) (conversations db).

(** [Conversation.findById(v)] on an unchecked value: a string that is a
    well-formed id is cast and looked up; with any other value of the model
    the query rejects with a cast error. *)
Definition Conversation_findById (v : Js.value) (db : Store)
  : throws (option Conversation) :=
  match v with
  | Js.JStr s => if isValid s then mret (Conversation_lookup s db) else throw CastError
  | _ => throw CastError
  end.

(** [conversation.participants.some(p => p.toString() === userId)] *)
Definition isParticipant (c : Conversation) (userId : string) : bool :=
  existsb (fun p => String.eqb p userId) (participants c).

(** [Conversation.findOne({ participants: { $all: [a, b] } })] with [a] the
    id of a document and [b] the text of a request, which the query casts. *)
Definition matches_all (a b : string) (c : Conversation) : bool :=
  existsb (String.eqb a) (participants c)
  && existsb (String.eqb (canonical b)) (participants c).

Definition Conversation_findOne_all (a b : string) (db : Store)
  : option Conversation :=
  List.find (matches_all a b) (conversations db).

(** [Message.find({ conversation: id })], in insertion order. *)
Definition Message_find (id : string) (db : Store) : list Message :=
  List.filter (fun m => String.eqb (conversation m) (canonical id)) (messages db).

(** ** Writes *)

(** What the environment supplies to a handler that writes: the id generated
    for a created document and the clock readings of [create] and [save]. *)
Record Env := {
  generated : string;
  now_create : Z;
  now_save : Z
}.

(** The text of the generated object id. *)
Definition fresh_id (env : Env) : string := canonical (generated env).

(** [Message.create({ conversation, sender, content, readBy: [sender] })];
    [cid] is the text of the request, [senderId] the id of a document. *)
Definition Message_create (env : Env) (cid senderId text : string) (db : Store)
  : Message * Store :=
  let m := {| msg_id := fresh_id env; conversation := canonical cid;
              sender := senderId;
              content := text; readBy := [senderId];
              createdAt := now_create env |} in
  (m, {| users := users db; posts := posts db;
         conversations := conversations db;
         messages := messages db ++ [m] |}).

(** [conversation.save()]: the document replaces the stored one with the same
    id and [timestamps] stamps [updatedAt] with the current time. The stamped
    document is returned, as [save] updates the object in place. *)
Definition Conversation_save (now : Z) (c : Conversation) (db : Store)
  : Conversation * Store :=
  let c' := {| conv_id := conv_id c; participants := participants c;
               post := post c; lastMessage := lastMessage c;
               conv_createdAt := conv_createdAt c; updatedAt := now |} in
  (c', {| users := users db; posts := posts db;
          conversations :=
            List.map (fun d => if String.eqb (conv_id d) (conv_id c) then c' else d)
                     (conversations db);
          messages := messages db |}).

(** [Conversation.create({ participants: [a, b], post })] with the schema
    defaults for [lastMessage]; [a] is the id of a document, [b] the text of
    a request. *)
Definition Conversation_create (env : Env) (a b : string) (p : option string)
    (db : Store) : Conversation * Store :=
  let c := {| conv_id := fresh_id env; participants := [a; canonical b];
              post := p;
              lastMessage := {| lm_content := ""; lm_sender := None;
                                lm_createdAt := None |};
              conv_createdAt := now_create env; updatedAt := now_create env |} in
  (c, {| users := users db; posts := posts db;
         conversations := conversations db ++ [c];
         messages := messages db |}).

(** [conversation.lastMessage = { content, sender, createdAt }] *)
Definition set_lastMessage (c : Conversation) (text senderId : string) (at_ : Z)
  : Conversation :=
  {| conv_id := conv_id c; participants := participants c; post := post c;
     lastMessage := {| lm_content := text; lm_sender := Some senderId;
                       lm_createdAt := Some at_ |};
     conv_createdAt := conv_createdAt c; updatedAt := updatedAt c |}.

(** [conversation.post = p] *)
Definition set_post (c : Conversation) (p : string) : Conversation :=
  {| conv_id := conv_id c; participants := participants c; post := Some p;
     lastMessage := lastMessage c;
     conv_createdAt := conv_createdAt c; updatedAt := updatedAt c |}.

(** ** Populated views *)

(** [message.populate('sender', 'name email photoURL')]: the reference is
    replaced by the user document, or by [null] when there is none. *)
Record PopulatedMessage := {
  pm_doc : Message;
  pm_sender : option User
}.

Definition populate_sender (db : Store) (m : Message) : PopulatedMessage :=
  {| pm_doc := m; pm_sender := User_findById (sender m) db |}.

(** [.populate('participants', ...).populate('post', ...)]: a reference
    without a document is dropped from a populated array and is [null] in a
    populated field. *)
Record PopulatedConversation := {
  pc_doc : Conversation;
  pc_participants : list User;
  pc_post : option Post
}.

Definition populate_conversation (db : Store) (c : Conversation)
  : PopulatedConversation :=
  {| pc_doc := c;
     pc_participants := omap (fun id => User_findById id db) (participants c);
     pc_post := match post c with
                | Some id => Post_findById id db
                | None => None
                end |}.

(** ** The realtime gateway *)

(** The part of the socket.io server the handlers use: the adapter's table
    from a room name to the ids of the sockets in it. *)
Record Server := {
  rooms : gmap string (gset string)
}.

(** A connection that passed the handshake middleware: [socket.id] and the
    user the middleware stored in [socket.user]. *)
Record Socket := {
  sock_id : string;
  sock_user : User
}.

Inductive event :=
| ConnectionReady (userId : string)
| MessageNew (conversationId : string) (message : PopulatedMessage)
| ConversationUpdate (conversationId : string) (summary : LastMessage) (stamp : Z)
| MessageError (message : string).

(** One event handed to one socket. *)
Definition delivery : Type := string * event.

Definition room_members (srv : Server) (room : string) : gset string :=
  default ∅ (rooms srv !! room).

(** [socket.join(room)] *)
Definition socket_join (sid room : string) (srv : Server) : Server :=
  {| rooms := <[room := {[sid]} ∪ room_members srv room]> (rooms srv) |}.

(** [socket.leave(room)]; the adapter forgets a room that became empty. *)
Definition socket_leave (sid room : string) (srv : Server) : Server :=
  let rest := room_members srv room ∖ {[sid]} in
  {| rooms := if decide (rest = ∅) then delete room (rooms srv)
              else <[room := rest]> (rooms srv) |}.

(** What closing a socket does to the adapter: it leaves every room. *)
Definition socket_leave_all (sid : string) (srv : Server) : Server :=
  {| rooms := filter (fun kv => kv.2 ≠ ∅)
                     ((fun members => members ∖ {[sid]}) <$> rooms srv) |}.

(** [socket.emit(ev, data)] *)
Definition socket_emit (sid : string) (ev : event) : list delivery := [(sid, ev)].

(** [io.to(room).emit(ev, data)]: one copy to each socket of the room. *)
Definition room_emit (srv : Server) (room : string) (ev : event) : list delivery :=
  (fun sid => (sid, ev)) <$> elements (room_members srv room).

(** The state the server process holds: the database, the gateway and the
    module-level presence map [onlineUsers]. *)
Record World := {
  db : Store;
  io : Server;
  onlineUsers : gmap string string
}.

Definition with_db (w : World) (d : Store) : World :=
  {| db := d; io := io w; onlineUsers := onlineUsers w |}.

(** [socket.user?._id?.toString()] *)
Definition userId_of (sock : Socket) : string := u_id (sock_user sock).

(** Body of [io.on('connection', ...)] up to the registration of the
    listeners; a new socket starts in the room named after its own id. *)
Definition on_connection (sock : Socket) (w : World) : World * list delivery :=
  let userId := userId_of sock in
  let srv := socket_join (sock_id sock) (sock_id sock) (io w) in
  ({| db := db w; io := srv;
      onlineUsers := if Js.truthy (Js.JStr userId)
                     then <[userId := sock_id sock]> (onlineUsers w)
                     else onlineUsers w |},
   socket_emit (sock_id sock) (ConnectionReady userId)).

(** [socket.on('conversation:join', ...)] *)
Definition on_conversation_join (sock : Socket) (conversationId : Js.value)
    (w : World) : World :=
  if Js.truthy conversationId
  then {| db := db w;
          io := socket_join (sock_id sock) (Js.toString conversationId) (io w);
          onlineUsers := onlineUsers w |}
  else w.

(** [socket.on('conversation:leave', ...)] *)
Definition on_conversation_leave (sock : Socket) (conversationId : Js.value)
    (w : World) : World :=
  if Js.truthy conversationId
  then {| db := db w;
          io := socket_leave (sock_id sock) (Js.toString conversationId) (io w);
          onlineUsers := onlineUsers w |}
  else w.

(** Closing a connection: the adapter drops its room memberships and the
    ['disconnect'] listener removes the presence entry of its user. *)
Definition on_disconnect (sock : Socket) (w : World) : World :=
  let userId := userId_of sock in
  {| db := db w;
     io := socket_leave_all (sock_id sock) (io w);
     onlineUsers := if Js.truthy (Js.JStr userId)
                    then delete userId (onlineUsers w)
                    else onlineUsers w |}.

(** The persist-and-broadcast tail the two send paths share word for word:
    create the message, overwrite the summary, save, populate, and build the
    two room events. [gateway] is the dispatch handle, when there is one. *)
Definition persist_and_broadcast (gateway : option Server) (env : Env)
    (c : Conversation) (conversationId : string) (author : User) (text : string)
    (d : Store) : PopulatedMessage * Store * list delivery :=
  let '(message, d1) :=
    Message_create env conversationId (u_id author) text d in
  let c1 := set_lastMessage c text (u_id author) (createdAt message) in
  let '(c2, d2) := Conversation_save (now_save env) c1 d1 in
  let populatedMessage := populate_sender d2 message in
  let out :=
    match gateway with
    | Some srv =>
        (room_emit srv conversationId (MessageNew conversationId populatedMessage)
         ++ room_emit srv conversationId
              (ConversationUpdate conversationId (lastMessage c2) (updatedAt c2)))%list
    | None => []
    end in
  (populatedMessage, d2, out).

(** The [try] block of [socket.on('message:send', ...)]. *)
Definition message_send_try (env : Env) (sock : Socket)
    (conversationId content : Js.value) (w : World)
  : throws (World * list delivery) :=
  if negb (Js.truthy conversationId) then mret (w, [])
  else
    blank ← blank_content content;
    if (blank : bool) then mret (w, [])
    else
      found ← Conversation_findById conversationId (db w);
      match found with
      | None =>
          mret (w, socket_emit (sock_id sock) (MessageError "Conversation not found"))
      | Some c =>
          if negb (isParticipant c (userId_of sock))
          then mret (w, socket_emit (sock_id sock)
                          (MessageError "Not authorized for this conversation"))
          else
            text ← js_trim content;
            let '(_, d', out) :=
              persist_and_broadcast (Some (io w)) env c
                (Js.toString conversationId) (sock_user sock) text (db w) in
            mret (with_db w d', out)
      end.

(** How a listener invocation ends. The parameter pattern
    [({ conversationId, content })] is bound before the [try] block is
    entered, so a missing payload rejects the handler's promise with nothing
    to catch it. *)
Record Outcome := {
  out_world : World;
  out_deliveries : list delivery;
  out_rejected : bool
}.

(** What an unhandled rejection leaves: it ends the server process, and with
    it the rooms of the gateway and the presence map; the database stays. *)
Definition process_exit (w : World) : World :=
  {| db := db w; io := {| rooms := ∅ |}; onlineUsers := ∅ |}.

(** [socket.on('message:send', async ({ conversationId, content }) => ...)];
    [payload] is [None] for [undefined] or [null]. *)
Definition on_message_send (env : Env) (sock : Socket)
    (payload : option (Js.value * Js.value)) (w : World) : Outcome :=
  match payload with
  | None =>
      {| out_world := process_exit w; out_deliveries := []; out_rejected := true |}
  | Some (conversationId, content) =>
      match message_send_try env sock conversationId content w with
      | inr (w', out) =>
          {| out_world := w'; out_deliveries := out; out_rejected := false |}
      | inl _ =>
          {| out_world := w;
             out_deliveries :=
               socket_emit (sock_id sock) (MessageError "Failed to send message");
             out_rejected := false |}
      end
  end.

(** ** The REST facade *)

(** [conversation.post] as the creation endpoint returns it: absent, a bare
    id (just assigned), or the populated document. *)
Inductive PostRef :=
| NoPost
| PostId (id : string)
| PostDoc (p : Post).

Inductive json :=
| Failure (error : string)
| Failure500 (error : string) (cause : exn)
| ConversationBody (doc : Conversation) (members : list User) (related : PostRef)
| MessagesBody (history : list PopulatedMessage)
| MessageBody (message : PopulatedMessage).

Record Response := {
  status : Z;
  body : json
}.

Definition respond (code : Z) (b : json) : Response :=
  {| status := code; body := b |}.

(** The [try] block of [router.post('/conversations/:conversationId/messages')];
    [app_io] is what [req.app.get('io')] returns. *)
Definition post_message_try (app_io : option Server) (env : Env) (user : User)
    (conversationId : string) (content : Js.value) (d : Store)
  : throws (Response * Store * list delivery) :=
  blank ← blank_content content;
  if (blank : bool)
  then mret (respond 400 (Failure "Message content is required"), d, [])
  else if negb (isValid conversationId)
  then mret (respond 400 (Failure "Invalid conversation ID"), d, [])
  else
    found ← Conversation_findById (Js.JStr conversationId) d;
    match found with
    | None => mret (respond 404 (Failure "Conversation not found"), d, [])
    | Some c =>
        if negb (isParticipant c (u_id user))
        then mret (respond 403 (Failure "You are not part of this conversation"), d, [])
        else
          text ← js_trim content;
          let '(populatedMessage, d', out) :=
            persist_and_broadcast app_io env c conversationId user text d in
          mret (respond 201 (MessageBody populatedMessage), d', out)
    end.

(** [POST /conversations/:conversationId/messages] behind [authenticateToken],
    which put the caller in [req.user]. *)
Definition post_message (app_io : option Server) (env : Env) (user : User)
    (conversationId : string) (content : Js.value) (d : Store)
  : Response * Store * list delivery :=
  match post_message_try app_io env user conversationId content d with
  | inr r => r
  | inl e => (respond 500 (Failure500 "Failed to send message" e), d, [])
  end.

(** [POST /conversations { participantId, postId }]. The handler is split
    where it awaits between its last read ([findOne]) and its write
    ([create] or [save]): [create_conversation_lookup] runs up to the result of
    [findOne], [create_conversation_commit] runs the rest. *)
Record Pending := {
  pend_user : User;
  pend_participantId : string;
  pend_relatedPost : option string;
  pend_found : option (Conversation * list User * option Post)
}.

Definition create_conversation_lookup (user : User)
    (participantId postId : option string) (d : Store) : Response + Pending :=
  match participantId with
  | None => inl (respond 400 (Failure "Valid participantId is required"))
  | Some pid =>
      if negb (Js.truthy (Js.JStr pid)) || negb (isValid pid)
      then inl (respond 400 (Failure "Valid participantId is required"))
      else if String.eqb pid (u_id user)
      then inl (respond 400 (Failure "You cannot start a conversation with yourself"))
      else
        match User_findById pid d with
        | None => inl (respond 404 (Failure "Artist not found"))
        | Some _ =>
            let relatedPost :=
              match postId with
              | Some q =>
                  if Js.truthy (Js.JStr q) && isValid q
                  then p_id <$> Post_findById q d
                  else None
              | None => None
              end in
            let found :=
              (fun c =>
                 let v := populate_conversation d c in
                 (c, pc_participants v, pc_post v))
              <$> Conversation_findOne_all (u_id user) pid d in
            inr {| pend_user := user; pend_participantId := pid;
                   pend_relatedPost := relatedPost; pend_found := found |}
        end
  end.

Definition create_conversation_commit (env : Env) (p : Pending) (d : Store)
  : Response * Store :=
  match pend_found p with
  | None =>
      let '(c, d') :=
        Conversation_create env (u_id (pend_user p)) (pend_participantId p)
          (pend_relatedPost p) d in
      let v := populate_conversation d' c in
      (respond 200 (ConversationBody c (pc_participants v)
                      match pc_post v with Some q => PostDoc q | None => NoPost end),
       d')
  | Some (c, members, populatedPost) =>
      match pend_relatedPost p, populatedPost with
      | Some q, None =>
          let '(c', d') := Conversation_save (now_save env) (set_post c q) d in
          (respond 200 (ConversationBody c' members (PostId q)), d')
      | _, _ =>
          (respond 200 (ConversationBody c members
                          match populatedPost with
                          | Some q => PostDoc q
                          | None => NoPost
                          end),
           d)
      end
  end.

(** The endpoint when nothing else runs between its awaits. *)
Definition create_conversation (env : Env) (user : User)
    (participantId postId : option string) (d : Store) : Response * Store :=
  match create_conversation_lookup user participantId postId d with
  | inl r => (r, d)
  | inr p => create_conversation_commit env p d
  end.

(** The id of the conversation a response carries. *)
Definition returned_conversation (r : Response) : option string :=
  match body r with
  | ConversationBody c _ _ => Some (conv_id c)
  | _ => None
  end.

(** The order [createdAt] puts on messages. *)
Definition stamp_le (a b : Message) : Prop := createdAt a <= createdAt b.
Definition stamp_lt (a b : Message) : Prop := createdAt a < createdAt b.

(** *** Message history *)

Section History.

(** The database's [.sort({ createdAt: 1 })] on messages. The query names no
    second key, so all the handler can rely on is that the result holds the
    same documents in non-decreasing [createdAt] order. *)
Variable sort_createdAt : list Message → list Message.

Definition sort_contract : Prop :=
  ∀ l, Permutation (sort_createdAt l) l
       ∧ Sorted stamp_le (sort_createdAt l).

Definition get_messages_try (user : User) (conversationId : string) (d : Store)
  : throws Response :=
  if negb (isValid conversationId)
  then mret (respond 400 (Failure "Invalid conversation ID"))
  else
    found ← Conversation_findById (Js.JStr conversationId) d;
    match found with
    | None => mret (respond 404 (Failure "Conversation not found"))
    | Some c =>
        if negb (isParticipant c (u_id user))
        then mret (respond 403 (Failure "You are not part of this conversation"))
        else
          mret (respond 200
                  (MessagesBody
                     (populate_sender d
                        <$> sort_createdAt (Message_find conversationId d))))
    end.

(** [GET /conversations/:conversationId/messages] behind [authenticateToken];
    [res.json] leaves the status at 200. *)
Definition get_messages (user : User) (conversationId : string) (d : Store)
  : Response :=
  match get_messages_try user conversationId d with
  | inr r => r
  | inl e => respond 500 (Failure500 "Failed to load messages" e)
  end.

(** The documents of a history response, in the order returned. *)
Definition returned_history (r : Response) : option (list Message) :=
  match body r with
  | MessagesBody h => Some (pm_doc <$> h)
  | _ => None
  end.

End History.

(** ** The server as a transition system *)

(** One inbound event, handled to completion. *)
Inductive request :=
| Connect (sock : Socket)
| Join (sock : Socket) (conversationId : Js.value)
| Leave (sock : Socket) (conversationId : Js.value)
| Disconnect (sock : Socket)
| SocketSend (env : Env) (sock : Socket) (payload : option (Js.value * Js.value))
| RestCreate (env : Env) (user : User) (participantId postId : option string)
| RestSend (env : Env) (user : User) (conversationId : string) (content : Js.value).

(** The entry point registers the gateway with [app.set('io', io)], so the
    REST handlers of the running server find it. *)
Definition app_get_io (w : World) : option Server := Some (io w).

Definition handle (r : request) (w : World) : World :=
  match r with
  | Connect sock => (on_connection sock w).1
  | Join sock v => on_conversation_join sock v w
  | Leave sock v => on_conversation_leave sock v w
  | Disconnect sock => on_disconnect sock w
  | SocketSend env sock payload => out_world (on_message_send env sock payload w)
  | RestCreate env user pid qid =>
      with_db w (create_conversation env user pid qid (db w)).2
  | RestSend env user cid text =>
      with_db w (post_message (app_get_io w) env user cid text (db w)).1.2
  end.

Definition conversation_ids (d : Store) : list string :=
  conv_id <$> conversations d.

Definition message_ids (d : Store) : list string :=
  msg_id <$> messages d.

(** Ids generated for new documents are well formed and not in use. *)
Definition fresh_in (env : Env) (w : World) : Prop :=
  isValid (fresh_id env) = true
  ∧ (fresh_id env ∉ conversation_ids (db w))
  ∧ (fresh_id env ∉ message_ids (db w)).

Definition admissible (r : request) (w : World) : Prop :=
  match r with
  | SocketSend env _ _ | RestCreate env _ _ _ | RestSend env _ _ _ => fresh_in env w
  | _ => True
  end.

(** A server start: no conversation, no message, nobody connected. *)
Definition initial (w : World) : Prop :=
  conversations (db w) = [] ∧ messages (db w) = []
  ∧ rooms (io w) = ∅ ∧ onlineUsers w = ∅.

(** [evolves w w']: the server gets from [w] to [w'] by handling requests one
    after the other. *)
Inductive evolves (w : World) : World → Prop :=
| evolves_refl : evolves w w
| evolves_step w' r :
    evolves w w' → admissible r w' → evolves w (handle r w').

Definition reachable (w : World) : Prop := ∃ w0, initial w0 ∧ evolves w0 w.

(** A conversation between [a] and [b], in either order. *)
Definition same_pair (a b : string) (c : Conversation) : bool :=
  bool_decide (participants c = [a; b] ∨ participants c = [b; a]).

Definition conversations_of_pair (a b : string) (d : Store) : list Conversation :=
  List.filter (same_pair a b) (conversations d).

(** At most one conversation per unordered pair of participants. *)
Definition one_per_pair (d : Store) : Prop :=
  ∀ a b, (length (conversations_of_pair a b d) ≤ 1)%nat.

(** Every conversation has two participant entries, and ids are unique. *)
Definition well_formed (d : Store) : Prop :=
  Forall (fun c => ∃ a b, participants c = [a; b]) (conversations d)
  ∧ NoDup (conversation_ids d).

(** What never changes in a stored conversation: its id and participants. *)
Definition skeleton (d : Store) : list (string * list string) :=
  (fun c => (conv_id c, participants c)) <$> conversations d.

Definition pair_count (a b : string) (sk : list (string * list string)) : nat :=
  length (List.filter (fun e => bool_decide (e.2 = [a; b] ∨ e.2 = [b; a])) sk).

(** The invariant of the conversation collection. *)
Definition invariant (d : Store) : Prop := well_formed d ∧ one_per_pair d.

(** [matches_all], read off the skeleton. *)
Definition holds_both (a b : string) (e : string * list string) : bool :=
  existsb (String.eqb a) e.2 && existsb (String.eqb (canonical b)) e.2.

(** [d'] has the users of [d] and its conversations, possibly more. *)
Definition grows (d d' : Store) : Prop :=
  users d' = users d ∧ skeleton d `prefix_of` skeleton d'.

(** *** Creation requests whose awaits interleave *)

(** The event loop may run other handlers while a creation handler awaits:
    [Begin] runs a handler up to the result of its [findOne] and parks it,
    [Resume k] runs the rest of the [k]-th parked handler. *)
Inductive action :=
| Begin (user : User) (participantId postId : option string)
| Resume (env : Env) (k : nat).

Record Loop := {
  loop_db : Store;
  loop_parked : list Pending
}.

Definition loop_step (s : Loop) (a : action) : Loop :=
  match a with
  | Begin user pid qid =>
      match create_conversation_lookup user pid qid (loop_db s) with
      | inl _ => s
      | inr p => {| loop_db := loop_db s; loop_parked := loop_parked s ++ [p] |}
      end
  | Resume env k =>
      match loop_parked s !! k with
      | None => s
      | Some p =>
          {| loop_db := (create_conversation_commit env p (loop_db s)).2;
             loop_parked := delete k (loop_parked s) |}
      end
  end.

Definition run_loop (schedule : list action) (d : Store) : Loop :=
  foldl loop_step {| loop_db := d; loop_parked := [] |} schedule.

(** ** What a connection receives *)

Definition is_message_new (e : event) : bool :=
  match e with MessageNew _ _ => true | _ => false end.

Definition is_conversation_update (e : event) : bool :=
  match e with ConversationUpdate _ _ _ => true | _ => false end.

(** The events among [out] handed to socket [sid], in order. *)
Definition received (sid : string) (out : list delivery) : list event :=
  snd <$> List.filter (fun d => String.eqb d.1 sid) out.

Definition count_received (kind : event → bool) (sid : string)
    (out : list delivery) : nat :=
  length (List.filter kind (received sid out)).

(** Members of a room of the gateway the application holds, if it holds one. *)
Definition joined (gateway : option Server) (room sid : string) : Prop :=
  match gateway with
  | Some srv => sid ∈ room_members srv room
  | None => False
  end.

(** ** Two databases that honour [.sort({ createdAt: 1 })] *)

(** Insertion sort on [createdAt]; [before x y] decides whether [x] is put
    in front of [y]. *)
Fixpoint insert_by (before : Z → Z → bool) (x : Message) (l : list Message)
  : list Message :=
  match l with
  | [] => [x]
  | y :: r =>
      if before (createdAt x) (createdAt y) then x :: y :: r
      else y :: insert_by before x r
  end.

Definition sort_by (before : Z → Z → bool) (l : list Message) : list Message :=
  foldr (insert_by before) [] l.

(** Equal stamps keep their insertion order. *)
Definition sort_ties_in_order : list Message → list Message := sort_by Z.leb.

(** Equal stamps come back in reverse insertion order. *)
Definition sort_ties_reversed : list Message → list Message := sort_by Z.ltb.

(** [content] is missing, or is a string that is blank once trimmed. *)
Definition missing_or_blank (v : Js.value) : bool :=
  match v with
  | Js.JUndefined | Js.JNull => true
  | Js.JStr s => String.eqb (Js.trim s) ""
  | _ => false
  end.

(** ** A small database for the examples *)

Definition alice : User :=
  {| u_oid := "aaaaaaaaaaaaaaaaaaaaaaaa"; u_name := "Alice";
     u_email := "alice@example.com"; u_photoURL := "" |}.

Definition bob : User :=
  {| u_oid := "bbbbbbbbbbbbbbbbbbbbbbbb"; u_name := "Bob";
     u_email := "bob@example.com"; u_photoURL := "" |}.

Definition carol : User :=
  {| u_oid := "cccccccccccccccccccccccc"; u_name := "Carol";
     u_email := "carol@example.com"; u_photoURL := "" |}.

Definition room0 : string := "c0c0c0c0c0c0c0c0c0c0c0c0".

Definition conv0 : Conversation :=
  {| conv_id := room0; participants := [u_id alice; u_id bob]; post := None;
     lastMessage := {| lm_content := ""; lm_sender := None; lm_createdAt := None |};
     conv_createdAt := 100; updatedAt := 100 |}.

Definition store0 : Store :=
  {| users := [alice; bob; carol]; posts := [];
     conversations := [conv0]; messages := [] |}.

Definition empty_store : Store :=
  {| users := [alice; bob; carol]; posts := [];
     conversations := []; messages := [] |}.

Definition env0 : Env :=
  {| generated := "0000000000000000000000e0"; now_create := 200; now_save := 201 |}.

Definition env1 : Env :=
  {| generated := "0000000000000000000000e1"; now_create := 300; now_save := 301 |}.

Definition alice_socket : Socket := {| sock_id := "sock-alice"; sock_user := alice |}.
Definition bob_socket : Socket := {| sock_id := "sock-bob"; sock_user := bob |}.
Definition carol_socket : Socket := {| sock_id := "sock-carol"; sock_user := carol |}.

(** Bob has joined the room of [conv0]; Carol is connected elsewhere. *)
Definition gateway0 : Server :=
  {| rooms := {[ room0 := {[ "sock-bob" ]} ]} |}.

Definition world0 : World :=
  {| db := store0; io := gateway0;
     onlineUsers := {[ u_id bob := "sock-bob"; u_id carol := "sock-carol" ]} |}.

(** The database after a run of REST sends to one conversation, each
    awaited before the next is issued. *)
Definition rest_sends (conversationId : string)
    (sends : list (Env * User * string)) (d : Store) : Store :=
  foldl (fun acc '(env, author, text) =>
           (post_message None env author conversationId (Js.JStr text) acc).1.2)
        d sends.

(** The document [Message.create] builds for one such send. *)
Definition sent_message (conversationId : string) (s : Env * User * string)
  : Message :=
  let '(env, author, text) := s in
  {| msg_id := fresh_id env; conversation := canonical conversationId;
     sender := u_id author; content := Js.trim text;
     readBy := [u_id author]; createdAt := now_create env |}.

(** Two sends whose [Message.create] read the same millisecond. *)
Definition env_tick_a : Env :=
  {| generated := "0000000000000000000000a1"; now_create := 500; now_save := 501 |}.

Definition env_tick_b : Env :=
  {| generated := "0000000000000000000000b2"; now_create := 500; now_save := 502 |}.

(** The server just started on a database with three users. *)
Definition start_world : World :=
  {| db := empty_store; io := {| rooms := ∅ |}; onlineUsers := ∅ |}.

Definition env2 : Env :=
  {| generated := "0000000000000000000000e2"; now_create := 400; now_save := 401 |}.

Definition env3 : Env :=
  {| generated := "0000000000000000000000e3"; now_create := 600; now_save := 601 |}.

(** Alice has opened a conversation with Bob and sent a first message. *)
Definition chat_world : World :=
  handle (RestSend env1 alice (fresh_id env0) (Js.JStr " Hello "))
    (handle (RestCreate env0 alice (Some (u_id bob)) None) start_world).

(** Later Alice opens a conversation with Carol, and Bob answers Alice. *)
Definition later_world : World :=
  handle (RestSend env3 bob (fresh_id env0) (Js.JStr "Hi"))
    (handle (RestCreate env2 alice (Some (u_id carol)) None) chat_world).

(** A second conversation, between Alice and Carol, touched after [conv0]. *)
Definition room1 : string := "c1c1c1c1c1c1c1c1c1c1c1c1".

Definition conv1 : Conversation :=
  {| conv_id := room1; participants := [u_id alice; u_id carol]; post := None;
     lastMessage := {| lm_content := "See you"; lm_sender := Some (u_id carol);
                       lm_createdAt := Some 150 |};
     conv_createdAt := 120; updatedAt := 150 |}.

Definition busy_store : Store :=
  {| users := [alice; bob; carol]; posts := [];
     conversations := [conv0; conv1]; messages := [] |}.

(** The id of [conv0] as a client may spell it. *)
Definition room0_capitals : string := "C0C0C0C0C0C0C0C0C0C0C0C0".

(** Alice has opened a conversation with Bob, then one with Carol. *)
Definition two_rooms_world : World :=
  handle (RestCreate env1 alice (Some (u_id carol)) None)
    (handle (RestCreate env0 alice (Some (u_id bob)) None) start_world).

(** Alice and Bob each ask for a conversation with the other; both handlers
    get the result of their [findOne] before either writes. *)
Definition overlapping_schedule : list action :=
  [Begin alice (Some (u_id bob)) None; Begin bob (Some (u_id alice)) None;
   Resume env0 0; Resume env1 0].

(** A listing of Bob's, and a database that holds it. *)
Definition listing1 : Post :=
  {| p_id := "111111111111111111111111"; p_title := "Blue vase";
     p_images := ["vase.jpg"]; p_author := u_id bob; p_authorName := "Bob" |}.

Definition market_store : Store :=
  {| users := [alice; bob; carol]; posts := [listing1];
     conversations := []; messages := [] |}.

(** The world after Alice opened a conversation with Bob about the listing
    and Bob joined its room. *)
Definition market_world : World :=
  {| db := (create_conversation env0 alice (Some (u_id bob))
              (Some (p_id listing1)) market_store).2;
     io := {| rooms := {[ fresh_id env0 := {[ "sock-bob" ]} ]} |};
     onlineUsers := {[ u_id bob := "sock-bob" ]} |}.

(** ** Credentials *)

(** [s.split(sep)] for a one-character separator. *)
Fixpoint split_on (sep : ascii) (s : string) : list string :=
  match s with
  | EmptyString => [EmptyString]
  | String a r =>
      if Ascii.eqb a sep then EmptyString :: split_on sep r
      else match split_on sep r with
           | h :: t => String a h :: t
           | [] => [String a EmptyString]
           end
  end.

(** Whether the code unit [sep] occurs in [s]. *)
Fixpoint contains (sep : ascii) (s : string) : bool :=
  match s with
  | EmptyString => false
  | String a r => Ascii.eqb a sep || contains sep r
  end.

(** [req.headers.authorization?.split(' ')[1]] *)
Definition bearer_token (authorization : option string) : option string :=
  match authorization with
  | Some h => split_on " " h !! 1%nat
  | None => None
  end.

(** [!token] for what [bearer_token] extracted. *)
Definition no_token (token : option string) : bool :=
  match token with
  | Some t => negb (Js.truthy (Js.JStr t))
  | None => true
  end.

(** [User.findById(decoded.userId)]: [undefined] and [null] find nobody, a
    string that is a well-formed id is cast and looked up, any other value of
    the model is a cast error. *)
Definition User_findById_value (v : Js.value) (d : Store) : throws (option User) :=
  match v with
  | Js.JUndefined | Js.JNull => mret None
  | Js.JStr s => if isValid s then mret (User_findById s d) else throw CastError
  | _ => throw CastError
  end.

(** What a middleware does with a request: answer it, or hand it on with the
    user it resolved. *)
Inductive auth_outcome :=
| Refused (r : Response)
| Passed (user : User).

(** [s.toLowerCase()] on code units below 256: A-Z and the accented capitals
    (all of 192-222 but the multiplication sign) move up by 32. *)
Definition lower_unit (a : ascii) : ascii :=
  let n := N_of_ascii a in
  if ((65 <=? n) && (n <=? 90)
      || (192 <=? n) && (n <=? 222) && negb (n =? 215))%N
  then ascii_of_N (n + 32) else a.

Fixpoint toLowerCase (s : string) : string :=
  match s with
  | EmptyString => EmptyString
  | String a r => String (lower_unit a) (toLowerCase r)
  end.

Section Credentials.

(** [jwt.verify(token, secret)]: the [userId] of the decoded payload, or the
    [name] of the error it throws. *)
Variable jwt_verify : string → string + Js.value.

(** The [catch] block of the chat router's [authenticateToken]; the
    [message] field of the 500 body is not modelled. *)
Definition token_failure (name : string) : Response :=
  if String.eqb name "JsonWebTokenError"
  then respond 401 (Failure "Invalid token")
  else respond 500 (Failure "Token verification failed").

(** [authenticateToken] of the chat router. *)
Definition authenticateToken (authorization : option string) (d : Store)
  : auth_outcome :=
  let token := bearer_token authorization in
  if no_token token then Refused (respond 401 (Failure "No token provided"))
  else
    match jwt_verify (default "" token) with
    | inl name => Refused (token_failure name)
    | inr userId =>
        match User_findById_value userId d with
        | inl _ => Refused (token_failure "CastError")
        | inr None =>
            Refused (respond 404 (Failure "User not found. Please log in again."))
        | inr (Some user) => Passed user
        end
    end.

(** [io.use(async (socket, next) => ...)]: [auth_token] and [query_token] are
    [socket.handshake.auth?.token] and [socket.handshake.query?.token]; every
    failure ends in [next(new Error('Authentication error'))]. *)
Definition handshake (auth_token query_token : option string) (d : Store)
  : string + User :=
  let token := if no_token auth_token then query_token else auth_token in
  if no_token token then inl "Authentication error"
  else
    match jwt_verify (default "" token) with
    | inl _ => inl "Authentication error"
    | inr userId =>
        match User_findById_value userId d with
        | inr (Some user) => inr user
        | _ => inl "Authentication error"
        end
    end.

(** [process.env.ADMIN_EMAILS ? ....split(',').map(e => e.trim().toLowerCase()) : []] *)
Definition adminEmails (ADMIN_EMAILS : option string) : list string :=
  match ADMIN_EMAILS with
  | Some v =>
      if Js.truthy (Js.JStr v)
      then (fun e => toLowerCase (Js.trim e)) <$> split_on "," v
      else []
  | None => []
  end.

Definition defaultAdminEmail : string := "admin@crafthindustan.com".

(** The admin test of [authenticateAdmin]. *)
Definition is_admin (ADMIN_EMAILS : option string) (user : User) : bool :=
  existsb (String.eqb (toLowerCase (u_email user))) (adminEmails ADMIN_EMAILS)
  || String.eqb (toLowerCase (u_email user)) defaultAdminEmail.

(** The [catch] block of [authenticateAdmin]. *)
Definition admin_failure (name : string) : Response :=
  if String.eqb name "JsonWebTokenError"
  then respond 401 (Failure "Invalid token")
  else respond 401 (Failure "Authentication failed").

(** [authenticateAdmin] of the admin router. *)
Definition authenticateAdmin (ADMIN_EMAILS : option string)
    (authorization : option string) (d : Store) : auth_outcome :=
  let token := bearer_token authorization in
  if no_token token then Refused (respond 401 (Failure "Authentication required"))
  else
    match jwt_verify (default "" token) with
    | inl name => Refused (admin_failure name)
    | inr userId =>
        match User_findById_value userId d with
        | inl _ => Refused (admin_failure "CastError")
        | inr None => Refused (respond 401 (Failure "User not found"))
        | inr (Some user) =>
            if is_admin ADMIN_EMAILS user then Passed user
            else Refused (respond 403
                   (Failure "Admin access required. Contact administrator for access."))
        end
    end.

(** [router.post('/conversations/:conversationId/messages', authenticateToken, ...)]:
    the handler runs only when the middleware passes. *)
Definition guarded_post_message (app_io : option Server) (env : Env)
    (authorization : option string) (conversationId : string)
    (content : Js.value) (d : Store) : Response * Store * list delivery :=
  match authenticateToken authorization d with
  | Refused r => (r, d, [])
  | Passed user => post_message app_io env user conversationId content d
  end.

(** [router.post('/conversations', authenticateToken, ...)] *)
Definition guarded_create_conversation (env : Env)
    (authorization : option string) (participantId postId : option string)
    (d : Store) : Response * Store :=
  match authenticateToken authorization d with
  | Refused r => (r, d)
  | Passed user => create_conversation env user participantId postId d
  end.

End Credentials.

(** ** The conversation list *)

Definition recent_first (a b : Conversation) : Prop := updatedAt b <= updatedAt a.

(** [Conversation.find({ participants: userId })]: the documents whose
    [participants] array holds the id, in insertion order. *)
Definition Conversation_find_participant (userId : string) (d : Store)
  : list Conversation :=
  List.filter (fun c => existsb (String.eqb userId) (participants c))
              (conversations d).

Section Inbox.

(** The database's [.sort({ updatedAt: -1 })] on conversations. *)
Variable sort_updatedAt : list Conversation → list Conversation.

Definition inbox_contract : Prop :=
  ∀ l, Permutation (sort_updatedAt l) l ∧ Sorted recent_first (sort_updatedAt l).

(** [GET /conversations] behind [authenticateToken]: the body's
    [conversations], populated; [res.json] leaves the status at 200. *)
Definition get_conversations (user : User) (d : Store)
  : Z * list PopulatedConversation :=
  (200, populate_conversation d
          <$> sort_updatedAt (Conversation_find_participant (u_id user) d)).

End Inbox.

(** Insertion sort on [updatedAt], newest first: a database that honours the
    sort. *)
Fixpoint insert_recent (x : Conversation) (l : list Conversation)
  : list Conversation :=
  match l with
  | [] => [x]
  | y :: r => if updatedAt y <=? updatedAt x then x :: y :: r
              else y :: insert_recent x r
  end.

Definition sort_recent (l : list Conversation) : list Conversation :=
  foldr insert_recent [] l.

(** ** More of what a connection receives *)

Definition is_message_error (e : event) : bool :=
  match e with MessageError _ => true | _ => false end.

(** What every stored message satisfies: its content is non-empty and
    already trimmed, its sender is its only reader,
    and its conversation is stored with the sender among the participants. *)
Definition message_ok (d : Store) (m : Message) : Prop :=
  content m ≠ "" ∧ Js.trim (content m) = content m
  ∧ readBy m = [sender m]
  ∧ ∃ P, (conversation m, P) ∈ skeleton d ∧ sender m ∈ P.

(** A verifier for the examples: the token is the user id itself, except
    that ["expired"] is past its date and ["forged"] fails the signature. *)
Definition demo_verify (token : string) : string + Js.value :=
  if String.eqb token "expired" then inl "TokenExpiredError"
  else if String.eqb token "forged" then inl "JsonWebTokenError"
  else inr (Js.JStr token).

Definition dave : User :=
  {| u_oid := "dddddddddddddddddddddddd"; u_name := "Dave";
     u_email := "Admin@CraftHindustan.com"; u_photoURL := "" |}.

Definition erin : User :=
  {| u_oid := "eeeeeeeeeeeeeeeeeeeeeeee"; u_name := "Erin";
     u_email := "Erin@Example.com"; u_photoURL := "" |}.

Definition staff_store : Store :=
  {| users := [alice; dave; erin]; posts := [];
     conversations := []; messages := [] |}.

(** * Properties *)

(** ** A worked scenario *)

(** Alice opens a conversation with Bob about a listing: it is created with
    the two participants in call order and the listing attached. *)
Example scenario_create :
  (fun c => (participants c, post c, lm_content (lastMessage c)))
    <$> conversations market_world.(db)
  = [([u_id alice; u_id bob], Some (p_id listing1), "")].
Proof. reflexivity. Qed.

(** Alice sends ["Hello"]: the message is stored with her as sender and sole
    reader, the summary mirrors it, and Bob's socket gets the two events. *)
Example scenario_send :
  let o := on_message_send env1 alice_socket
             (Some (Js.JStr (fresh_id env0), Js.JStr "Hello")) market_world in
  (fun m => (sender m, content m, readBy m)) <$> messages (db (out_world o))
  = [(u_id alice, "Hello", [u_id alice])]
  ∧ lastMessage <$> conversations (db (out_world o))
    = [{| lm_content := "Hello"; lm_sender := Some (u_id alice);
          lm_createdAt := Some 300 |}]
  ∧ (fun e => (e.1, is_message_new e.2, is_conversation_update e.2))
      <$> out_deliveries o
    = [("sock-bob", true, false); ("sock-bob", false, true)].
Proof. vm_compute. repeat split. Qed.

(** A send to an id that matches no conversation, and one to a malformed
    id, each answer the sender alone. *)
Example scenario_unknown_conversation :
  out_deliveries (on_message_send env1 alice_socket
                    (Some (Js.JStr room0, Js.JStr "Hello")) market_world)
  = [("sock-alice", MessageError "Conversation not found")].
Proof. reflexivity. Qed.

Example scenario_malformed_id :
  out_deliveries (on_message_send env1 alice_socket
                    (Some (Js.JStr "xyz", Js.JStr "Hello")) market_world)
  = [("sock-alice", MessageError "Failed to send message")].
Proof. reflexivity. Qed.

Example scenario_content_not_a_string :
  out_deliveries (on_message_send env1 alice_socket
                    (Some (Js.JStr room0, Js.JNum 5)) market_world)
  = [("sock-alice", MessageError "Failed to send message")].
Proof. reflexivity. Qed.

(** ** Strings and ids *)

Example trim_hello : Js.trim "  Hello " = "Hello".
Proof. reflexivity. Qed.

Example trim_keeps_inner_space : Js.trim " a b  " = "a b".
Proof. reflexivity. Qed.

Example isValid_rejects_short : isValid "xyz" = false.
Proof. reflexivity. Qed.

Example isValid_accepts_room0 : isValid room0 = true.
Proof. reflexivity. Qed.

Lemma eqb_empty_false s : s ≠ "" → String.eqb s "" = false.
Proof. intros H. by apply String.eqb_neq. Qed.

(** A string that is not blank after trimming is not empty before. *)
Lemma trim_nonblank_truthy s : Js.trim s ≠ "" → Js.truthy (Js.JStr s) = true.
Proof.
  intros H. simpl. destruct s as [|a r]; [by destruct H|]. reflexivity.
Qed.

Lemma js_trim_text s : js_trim (Js.JStr s) = inr (Js.trim s).
Proof. reflexivity. Qed.

Lemma blank_content_text s :
  Js.trim s ≠ "" → blank_content (Js.JStr s) = inr false.
Proof.
  intros H. unfold blank_content.
  rewrite (trim_nonblank_truthy s H). simpl.
  by rewrite (eqb_empty_false _ H).
Qed.

Lemma blank_content_missing v :
  missing_or_blank v = true → blank_content v = inr true.
Proof.
  unfold blank_content.
  destruct v as [| |b|n|s|]; simpl; try done.
  intros H. destruct (String.eqb s "") eqn:E; simpl; [done|]. by rewrite H.
Qed.

Lemma bind_ret {A B} (a : A) (k : A → throws B) : (inr a ≫= k) = k a.
Proof. reflexivity. Qed.

(** ** Lookups *)

Lemma lower_hex_idem a : lower_hex (lower_hex a) = lower_hex a.
Proof.
  destruct a as [[] [] [] [] [] [] [] []]; reflexivity.
Qed.

(** Casting the text of an object id gives that text back. *)
Lemma canonical_idem s : canonical (canonical s) = canonical s.
Proof.
  induction s as [|a r IH]; simpl; [done|]. by rewrite lower_hex_idem, IH.
Qed.

Lemma canonical_u_id u : canonical (u_id u) = u_id u.
Proof. apply canonical_idem. Qed.

Lemma canonical_fresh_id env : canonical (fresh_id env) = fresh_id env.
Proof. apply canonical_idem. Qed.

Lemma is_hex_lower a : is_hex (lower_hex a) = is_hex a.
Proof.
  destruct a as [[] [] [] [] [] [] [] []]; reflexivity.
Qed.

(** A cast does not change whether a text is a well-formed id. *)
Lemma isValid_canonical s : isValid (canonical s) = isValid s.
Proof.
  unfold isValid. f_equal.
  - f_equal. induction s as [|a r IH]; simpl; [done|]. by rewrite IH.
  - induction s as [|a r IH]; simpl; [done|]. by rewrite is_hex_lower, IH.
Qed.

Example canonical_of_capitals :
  canonical "C0C0C0C0C0C0C0C0C0C0C0C0" = room0
  ∧ isValid "C0C0C0C0C0C0C0C0C0C0C0C0" = true.
Proof. split; reflexivity. Qed.

Lemma Conversation_lookup_id id d c :
  Conversation_lookup id d = Some c → conv_id c = canonical id.
Proof.
  unfold Conversation_lookup. intros H.
  apply find_some in H as [_ H]. by apply String.eqb_eq in H.
Qed.

Lemma Conversation_lookup_elem id d c :
  Conversation_lookup id d = Some c → c ∈ conversations d.
Proof.
  unfold Conversation_lookup. intros H.
  apply find_some in H as [H _]. by apply list_elem_of_In.
Qed.

Lemma Conversation_findById_Some v d c :
  Conversation_findById v d = inr (Some c) →
  ∃ id, v = Js.JStr id ∧ isValid id = true ∧ Conversation_lookup id d = Some c.
Proof.
  destruct v as [| |b|n|s|]; simpl; try done.
  destruct (isValid s) eqn:E; [|done].
  intros [= H]. eauto.
Qed.

Lemma Conversation_findById_valid id d :
  isValid id = true →
  Conversation_findById (Js.JStr id) d = inr (Conversation_lookup id d).
Proof. intros H. simpl. by rewrite H. Qed.

(** ** Silent rejection of blank socket sends *)

(** C9. A ['message:send'] whose [conversationId] is missing or falsy, or
    whose [content] is missing or blank after trimming, is dropped without a
    word: nothing is emitted, to the sender or to anyone, the handler returns
    normally, and the world (database, rooms, presence) is unchanged. *)
Theorem message_send_blank_is_silent env sock conversationId content w :
  Js.truthy conversationId = false ∨ missing_or_blank content = true →
  on_message_send env sock (Some (conversationId, content)) w
  = {| out_world := w; out_deliveries := []; out_rejected := false |}.
Proof.
  intros H. unfold on_message_send, message_send_try.
  destruct (Js.truthy conversationId) eqn:T; simpl; [|done].
  destruct H as [H|H]; [done|].
  by rewrite (blank_content_missing _ H).
Qed.

Lemma message_send_blank_is_silent_witness :
  on_message_send env0 carol_socket (Some (Js.JStr room0, Js.JStr "   ")) world0
  = {| out_world := world0; out_deliveries := []; out_rejected := false |}.
Proof.
  apply (message_send_blank_is_silent env0 carol_socket
           (Js.JStr room0) (Js.JStr "   ") world0).
  right. reflexivity.
Defined.

(** An event sent with no payload at all never enters the [try] block: the
    handler's promise is rejected and the process ends; nothing is emitted
    and the database is as it was. *)
Lemma message_send_without_payload env sock w :
  on_message_send env sock None w
  = {| out_world := process_exit w; out_deliveries := []; out_rejected := true |}
  ∧ db (process_exit w) = db w.
Proof. split; reflexivity. Qed.

(** ** Joining a room *)

Lemma room_members_join sid room srv :
  room_members (socket_join sid room srv) room = {[sid]} ∪ room_members srv room.
Proof. unfold room_members at 1, socket_join. simpl. by rewrite lookup_insert_eq. Qed.

(** C6. A ['conversation:join'] with any truthy conversation id puts the
    connection in the room of that name, whatever the database holds: the
    handler reads neither the conversation nor its participants, and leaves
    the database and the presence map as they were. *)
Theorem join_is_not_checked sock conversationId w :
  Js.truthy conversationId = true →
  sock_id sock ∈ room_members (io (on_conversation_join sock conversationId w))
                              (Js.toString conversationId)
  ∧ io (on_conversation_join sock conversationId w)
    = socket_join (sock_id sock) (Js.toString conversationId) (io w)
  ∧ db (on_conversation_join sock conversationId w) = db w
  ∧ onlineUsers (on_conversation_join sock conversationId w) = onlineUsers w.
Proof.
  intros T. unfold on_conversation_join. rewrite T. simpl.
  split; [|done]. rewrite room_members_join. set_solver.
Qed.

(** Carol is no participant of [conv0], and joins its room all the same. *)
Lemma join_is_not_checked_witness :
  isParticipant conv0 (u_id carol) = false
  ∧ "sock-carol" ∈ room_members
      (io (on_conversation_join carol_socket (Js.JStr room0) world0)) room0.
Proof.
  split; [reflexivity|].
  apply (join_is_not_checked carol_socket (Js.JStr room0) world0).
  reflexivity.
Defined.

(** ** Disconnecting *)

(** C7. Closing a connection removes the presence entry of its user, so a
    later lookup of that user in [onlineUsers] finds no socket, and leaves
    the database (users, posts, conversations, messages) untouched. *)
Theorem disconnect_clears_presence sock w :
  userId_of sock ≠ "" →
  onlineUsers (on_disconnect sock w) !! userId_of sock = None
  ∧ db (on_disconnect sock w) = db w.
Proof.
  intros H. unfold on_disconnect. simpl.
  rewrite (eqb_empty_false _ H). simpl.
  split; [apply lookup_delete_eq | done].
Qed.

Lemma disconnect_clears_presence_witness :
  onlineUsers world0 !! userId_of bob_socket = Some "sock-bob"
  ∧ onlineUsers (on_disconnect bob_socket world0) !! userId_of bob_socket = None
  ∧ db (on_disconnect bob_socket world0) = db world0.
Proof.
  split; [reflexivity|].
  apply (disconnect_clears_presence bob_socket world0).
  discriminate.
Defined.

(** ** Sends by a non-participant *)

Section NonParticipant.

Variables (d : Store) (conversationId : string) (c : Conversation)
          (text : string) (uid : string).
Hypothesis well_formed_id : isValid conversationId = true.
Hypothesis found : Conversation_lookup conversationId d = Some c.
Hypothesis outsider : isParticipant c uid = false.
Hypothesis not_blank : Js.trim text ≠ "".

Lemma socket_send_not_authorized env sock w :
  db w = d → userId_of sock = uid →
  on_message_send env sock (Some (Js.JStr conversationId, Js.JStr text)) w
  = {| out_world := w;
       out_deliveries :=
         [(sock_id sock, MessageError "Not authorized for this conversation")];
       out_rejected := false |}.
Proof.
  intros Hd Hu. unfold on_message_send, message_send_try.
  assert (Js.truthy (Js.JStr conversationId) = true) as ->.
  { destruct conversationId; [discriminate well_formed_id | reflexivity]. }
  simpl negb. cbv iota.
  rewrite (blank_content_text _ not_blank), bind_ret.
  rewrite Hd, (Conversation_findById_valid _ _ well_formed_id), bind_ret, found.
  by rewrite Hu, outsider.
Qed.

Lemma rest_send_forbidden app_io env user :
  u_id user = uid →
  post_message app_io env user conversationId (Js.JStr text) d
  = (respond 403 (Failure "You are not part of this conversation"), d, []).
Proof.
  intros Hu. unfold post_message, post_message_try.
  rewrite (blank_content_text _ not_blank), bind_ret.
  rewrite well_formed_id. simpl negb. cbv iota.
  rewrite (Conversation_findById_valid _ _ well_formed_id), bind_ret, found.
  by rewrite Hu, outsider.
Qed.

(** C1, as the handlers have it. A send with non-blank content to an existing
    conversation by a user who is not one of its participants is refused as
    not authorised: on the socket path the sender alone gets one
    ['message:error'] event, on the REST path the response is 403; in both no
    message is created and the database, rooms and presence map are
    unchanged. (Blank content is turned away before membership is looked
    at.) *)
Theorem send_by_non_participant_refused env sock w app_io user :
  db w = d → userId_of sock = uid → u_id user = uid →
  (let o := on_message_send env sock
              (Some (Js.JStr conversationId, Js.JStr text)) w in
   out_deliveries o
   = [(sock_id sock, MessageError "Not authorized for this conversation")]
   ∧ out_world o = w
   ∧ messages (db (out_world o)) = messages d)
  ∧ (let r := post_message app_io env user conversationId (Js.JStr text) d in
     status r.1.1 = 403 ∧ r.1.2 = d ∧ r.2 = []).
Proof.
  intros Hd Hs Hu. split.
  - rewrite (socket_send_not_authorized env sock w Hd Hs). simpl.
    by rewrite Hd.
  - by rewrite (rest_send_forbidden app_io env user Hu).
Qed.

End NonParticipant.

Lemma send_by_non_participant_refused_witness :
  (out_deliveries (on_message_send env0 carol_socket
                     (Some (Js.JStr room0, Js.JStr "hi")) world0)
   = [("sock-carol", MessageError "Not authorized for this conversation")]
   ∧ out_world (on_message_send env0 carol_socket
                  (Some (Js.JStr room0, Js.JStr "hi")) world0) = world0
   ∧ messages (db (out_world (on_message_send env0 carol_socket
                                (Some (Js.JStr room0, Js.JStr "hi")) world0)))
     = messages store0)
  ∧ status (post_message None env0 carol room0 (Js.JStr "hi") store0).1.1 = 403
  ∧ (post_message None env0 carol room0 (Js.JStr "hi") store0).1.2 = store0
  ∧ (post_message None env0 carol room0 (Js.JStr "hi") store0).2 = [].
Proof.
  apply (send_by_non_participant_refused store0 room0 conv0 "hi" (u_id carol));
    try reflexivity.
  discriminate.
Defined.

(** C1 as stated fails when the content is blank: Carol, who is not in
    [conv0], posts a blank message and is answered 400, not 403. *)
Lemma blank_send_by_non_participant_is_400 :
  Conversation_lookup room0 store0 = Some conv0
  ∧ isParticipant conv0 (u_id carol) = false
  ∧ status (post_message None env0 carol room0 (Js.JStr "   ") store0).1.1 = 400
  ∧ status (post_message None env0 carol room0 (Js.JStr "   ") store0).1.1 ≠ 403.
Proof. repeat split; try reflexivity. discriminate. Qed.

(** ** Saving a conversation *)

Lemma find_replaced id (c' : Conversation) (l : list Conversation) c0 :
  conv_id c' = id →
  List.find (fun x => String.eqb (conv_id x) id) l = Some c0 →
  List.find (fun x => String.eqb (conv_id x) id)
            (List.map (fun x => if String.eqb (conv_id x) id then c' else x) l)
  = Some c'.
Proof.
  intros Hid. induction l as [|x l IH]; simpl; [done|].
  destruct (String.eqb (conv_id x) id) eqn:E; simpl.
  - intros _. by rewrite Hid, String.eqb_refl.
  - rewrite E. exact IH.
Qed.

Lemma Conversation_lookup_save now id c d c0 :
  conv_id c = canonical id →
  Conversation_lookup id d = Some c0 →
  Conversation_lookup id (Conversation_save now c d).2
  = Some (Conversation_save now c d).1.
Proof.
  unfold Conversation_lookup, Conversation_save. simpl. intros -> H.
  by apply (find_replaced _ _ _ c0).
Qed.

Lemma persist_and_broadcast_unfold gateway env c cid author text d :
  persist_and_broadcast gateway env c cid author text d
  = let m := (Message_create env cid (u_id author) text d).1 in
    let d1 := (Message_create env cid (u_id author) text d).2 in
    let c1 := set_lastMessage c text (u_id author) (createdAt m) in
    let c2 := (Conversation_save (now_save env) c1 d1).1 in
    let d2 := (Conversation_save (now_save env) c1 d1).2 in
    (populate_sender d2 m, d2,
     match gateway with
     | Some srv =>
         (room_emit srv cid (MessageNew cid (populate_sender d2 m))
          ++ room_emit srv cid (ConversationUpdate cid (lastMessage c2) (updatedAt c2)))%list
     | None => []
     end).
Proof. reflexivity. Qed.

(** ** Counting what a room broadcast hands to a socket *)

Lemma received_app sid (a b : list delivery) :
  received sid (a ++ b) = (received sid a ++ received sid b)%list.
Proof. unfold received. by rewrite List.filter_app, fmap_app. Qed.

Lemma received_copies_absent sid ev (l : list string) :
  sid ∉ l → received sid ((fun s => (s, ev)) <$> l) = [].
Proof.
  unfold received. induction l as [|x l IH]; simpl; [done|].
  intros H. apply not_elem_of_cons in H as [Hx Hl].
  destruct (String.eqb x sid) eqn:E.
  - apply String.eqb_eq in E. by subst.
  - by apply IH.
Qed.

Lemma received_copies_once sid ev (l : list string) :
  NoDup l → sid ∈ l → received sid ((fun s => (s, ev)) <$> l) = [ev].
Proof.
  induction 1 as [|x l Hx Hnd IH]; intros Hin.
  - by apply elem_of_nil in Hin.
  - unfold received in *. simpl.
    destruct (String.eqb x sid) eqn:E.
    + apply String.eqb_eq in E. subst x. simpl. f_equal.
      by apply (received_copies_absent sid ev l).
    + apply elem_of_cons in Hin as [->|Hin].
      * by rewrite String.eqb_refl in E.
      * by apply IH.
Qed.

Lemma received_room_emit_member srv room ev sid :
  sid ∈ room_members srv room → received sid (room_emit srv room ev) = [ev].
Proof.
  intros H. apply received_copies_once; [apply NoDup_elements|].
  by apply elem_of_elements.
Qed.

Lemma received_room_emit_other srv room ev sid :
  sid ∉ room_members srv room → received sid (room_emit srv room ev) = [].
Proof.
  intros H. apply received_copies_absent. by rewrite elem_of_elements.
Qed.

(** ** Successful sends *)

Section SuccessfulSend.

Variables (d : Store) (conversationId : string) (c : Conversation)
          (text : string) (author : User) (env : Env).
Hypothesis well_formed_id : isValid conversationId = true.
Hypothesis found : Conversation_lookup conversationId d = Some c.
Hypothesis member : isParticipant c (u_id author) = true.
Hypothesis not_blank : Js.trim text ≠ "".

Lemma rest_send_created app_io :
  post_message app_io env author conversationId (Js.JStr text) d
  = let r := persist_and_broadcast app_io env c conversationId author
               (Js.trim text) d in
    (respond 201 (MessageBody r.1.1), r.1.2, r.2).
Proof.
  unfold post_message, post_message_try.
  rewrite (blank_content_text _ not_blank), bind_ret.
  rewrite well_formed_id. simpl negb. cbv iota.
  rewrite (Conversation_findById_valid _ _ well_formed_id), bind_ret, found.
  rewrite member. simpl negb. cbv iota.
  rewrite js_trim_text, bind_ret.
  by destruct (persist_and_broadcast _ _ _ _ _ _ _) as [[pm d'] out].
Qed.

Lemma socket_send_done sock w :
  sock_user sock = author → db w = d →
  on_message_send env sock (Some (Js.JStr conversationId, Js.JStr text)) w
  = let r := persist_and_broadcast (Some (io w)) env c conversationId author
               (Js.trim text) d in
    {| out_world := with_db w r.1.2; out_deliveries := r.2;
       out_rejected := false |}.
Proof.
  intros Hu Hd. unfold on_message_send, message_send_try.
  assert (Js.truthy (Js.JStr conversationId) = true) as ->.
  { destruct conversationId; [discriminate well_formed_id | reflexivity]. }
  simpl negb. cbv iota.
  rewrite (blank_content_text _ not_blank), bind_ret.
  rewrite Hd, (Conversation_findById_valid _ _ well_formed_id), bind_ret, found.
  unfold userId_of. rewrite Hu, member. simpl negb. cbv iota.
  rewrite js_trim_text, bind_ret.
  by destruct (persist_and_broadcast _ _ _ _ _ _ _) as [[pm d'] out].
Qed.

Lemma summary_after_persist gateway :
  ∃ c', Conversation_lookup conversationId
          (persist_and_broadcast gateway env c conversationId author
             (Js.trim text) d).1.2 = Some c'
        ∧ participants c' = participants c
        ∧ lastMessage c'
          = {| lm_content := Js.trim text; lm_sender := Some (u_id author);
               lm_createdAt := Some (now_create env) |}
        ∧ updatedAt c' = now_save env.
Proof.
  rewrite persist_and_broadcast_unfold. cbv zeta. cbn [fst snd].
  pose proof (Conversation_lookup_id _ _ _ found) as Hid.
  set (c1 := set_lastMessage _ _ _ _).
  set (d1 := (Message_create _ _ _ _ _).2).
  exists (Conversation_save (now_save env) c1 d1).1.
  split; [|by repeat split].
  apply (Conversation_lookup_save _ conversationId _ _ c); [exact Hid|].
  exact found.
Qed.

Lemma messages_after_persist gateway :
  messages (persist_and_broadcast gateway env c conversationId author
              (Js.trim text) d).1.2
  = (messages d
     ++ [{| msg_id := fresh_id env; conversation := canonical conversationId;
            sender := u_id author; content := Js.trim text;
            readBy := [u_id author]; createdAt := now_create env |}])%list.
Proof. reflexivity. Qed.

(** C3, as the handlers have it. After a successful send (socket or REST)
    of content [text], the conversation's [lastMessage.content] is [text]
    with leading and trailing white space removed, and [updatedAt] is the
    clock reading taken by the save, hence later than before whenever that
    reading is later. *)
Theorem send_updates_summary app_io sock w :
  sock_user sock = author → db w = d →
  (∃ c', Conversation_lookup conversationId
           (post_message app_io env author conversationId (Js.JStr text) d).1.2
         = Some c'
         ∧ lm_content (lastMessage c') = Js.trim text
         ∧ updatedAt c' = now_save env
         ∧ (updatedAt c < now_save env → updatedAt c < updatedAt c'))
  ∧ (∃ c', Conversation_lookup conversationId
             (db (out_world (on_message_send env sock
                               (Some (Js.JStr conversationId, Js.JStr text)) w)))
           = Some c'
           ∧ lm_content (lastMessage c') = Js.trim text
           ∧ updatedAt c' = now_save env
           ∧ (updatedAt c < now_save env → updatedAt c < updatedAt c')).
Proof.
  intros Hu Hd. split.
  - rewrite rest_send_created. cbv zeta. cbn [fst snd].
    destruct (summary_after_persist app_io) as (c' & Hc & _ & Hl & Hs).
    exists c'. rewrite Hl, Hs. by repeat split.
  - rewrite (socket_send_done sock w Hu Hd). cbv zeta. cbn [out_world with_db db].
    destruct (summary_after_persist (Some (io w))) as (c' & Hc & _ & Hl & Hs).
    exists c'. rewrite Hl, Hs. by repeat split.
Qed.

(** C10. A valid REST send by a participant whose application has no
    gateway registered ([req.app.get('io')] is undefined) still appends the
    message (under the object id the URL's text is cast to), still
    overwrites the conversation summary and stamps [updatedAt], and still
    answers 201 with the created message; nothing is broadcast. *)
Theorem rest_send_without_gateway :
  ∃ m d' c',
    post_message None env author conversationId (Js.JStr text) d
    = (respond 201 (MessageBody (populate_sender d' m)), d', [])
    ∧ messages d' = (messages d ++ [m])%list
    ∧ conversation m = canonical conversationId ∧ sender m = u_id author
    ∧ content m = Js.trim text ∧ readBy m = [u_id author]
    ∧ Conversation_lookup conversationId d' = Some c'
    ∧ lastMessage c'
      = {| lm_content := Js.trim text; lm_sender := Some (u_id author);
           lm_createdAt := Some (createdAt m) |}
    ∧ updatedAt c' = now_save env.
Proof.
  destruct (summary_after_persist None) as (c' & Hc & _ & Hl & Hs).
  eexists _, _, c'. split; [by rewrite rest_send_created|].
  split; [apply (messages_after_persist None)|].
  by repeat split.
Qed.

(** C2, as the handlers have it. For a successful send whose request spells
    the conversation id [conversationId], each socket in the room of that
    very name gets exactly one ['message:new'] and exactly one
    ['conversation:update'], and a socket outside that room, one that joined
    under another spelling of the id included, gets nothing. On the socket
    path the room is looked up in the gateway itself, on the REST path in the
    gateway the application holds. *)
Theorem broadcast_reaches_room_once app_io sock w sid :
  sock_user sock = author → db w = d →
  let rest := (post_message app_io env author conversationId (Js.JStr text) d).2 in
  let live := out_deliveries (on_message_send env sock
                (Some (Js.JStr conversationId, Js.JStr text)) w) in
  (joined app_io conversationId sid →
     count_received is_message_new sid rest = 1%nat
     ∧ count_received is_conversation_update sid rest = 1%nat
     ∧ length (received sid rest) = 2%nat)
  ∧ (¬ joined app_io conversationId sid → received sid rest = [])
  ∧ (joined (Some (io w)) conversationId sid →
       count_received is_message_new sid live = 1%nat
       ∧ count_received is_conversation_update sid live = 1%nat
       ∧ length (received sid live) = 2%nat)
  ∧ (¬ joined (Some (io w)) conversationId sid → received sid live = []).
Proof.
  intros Hu Hd rest live. subst rest live.
  rewrite rest_send_created, (socket_send_done sock w Hu Hd).
  cbv zeta. cbn [out_deliveries snd].
  rewrite !persist_and_broadcast_unfold. cbv zeta. cbn [snd].
  assert (∀ srv e1 e2,
    is_message_new e1 = true → is_conversation_update e1 = false →
    is_message_new e2 = false → is_conversation_update e2 = true →
    (sid ∈ room_members srv conversationId →
       count_received is_message_new sid
         (room_emit srv conversationId e1 ++ room_emit srv conversationId e2) = 1%nat
       ∧ count_received is_conversation_update sid
           (room_emit srv conversationId e1 ++ room_emit srv conversationId e2) = 1%nat
       ∧ length (received sid
           (room_emit srv conversationId e1 ++ room_emit srv conversationId e2)) = 2%nat)
    ∧ (sid ∉ room_members srv conversationId →
       received sid
         (room_emit srv conversationId e1 ++ room_emit srv conversationId e2) = []))
    as Hroom.
  { intros srv e1 e2 H1 H2 H3 H4. split; intros Hin.
    - unfold count_received.
      rewrite received_app, !(received_room_emit_member _ _ _ _ Hin).
      simpl. by rewrite H1, H2, H3, H4.
    - by rewrite received_app, !(received_room_emit_other _ _ _ _ Hin). }
  split; [|split; [|split]].
  - destruct app_io as [srv|]; [|done]. simpl. intros Hin.
    by apply Hroom.
  - destruct app_io as [srv|]; [|done]. simpl. intros Hin.
    by apply Hroom.
  - simpl. intros Hin. by apply Hroom.
  - simpl. intros Hin. by apply Hroom.
Qed.

End SuccessfulSend.

Lemma hello_not_blank : Js.trim " Hello " ≠ "".
Proof. vm_compute. discriminate. Qed.

Lemma bob_in_room0 : "sock-bob" ∈ room_members gateway0 room0.
Proof.
  unfold room_members, gateway0. simpl. rewrite lookup_singleton_eq. simpl.
  set_solver.
Qed.

Lemma carol_not_in_room0 : "sock-carol" ∉ room_members gateway0 room0.
Proof.
  unfold room_members, gateway0. simpl. rewrite lookup_singleton_eq. simpl.
  set_solver.
Qed.

Lemma send_updates_summary_witness :
  ∃ c', Conversation_lookup room0
          (post_message None env0 alice room0 (Js.JStr " Hello ") store0).1.2
        = Some c'
        ∧ lm_content (lastMessage c') = Js.trim " Hello "
        ∧ updatedAt c' = 201.
Proof.
  destruct (send_updates_summary store0 room0 conv0 " Hello " alice env0
              eq_refl eq_refl eq_refl hello_not_blank None alice_socket world0
              eq_refl eq_refl) as [(c' & H1 & H2 & H3 & _) _].
  exists c'. repeat split; assumption.
Defined.

(** C3 as stated fails for content with surrounding white space: Alice posts
    [" Hello "], the send succeeds with 201, and the summary holds ["Hello"],
    not the content sent. *)
Lemma summary_is_not_the_content_verbatim :
  status (post_message None env0 alice room0 (Js.JStr " Hello ") store0).1.1 = 201
  ∧ ∃ c', Conversation_lookup room0
            (post_message None env0 alice room0 (Js.JStr " Hello ") store0).1.2
          = Some c'
          ∧ lm_content (lastMessage c') = "Hello"
          ∧ lm_content (lastMessage c') ≠ " Hello ".
Proof.
  split; [reflexivity|].
  eexists. split; [vm_compute; reflexivity|].
  split; [reflexivity | discriminate].
Qed.

Lemma rest_send_without_gateway_witness :
  ∃ m d' c',
    post_message None env0 alice room0 (Js.JStr " Hello ") store0
    = (respond 201 (MessageBody (populate_sender d' m)), d', [])
    ∧ messages d' = (messages store0 ++ [m])%list
    ∧ content m = Js.trim " Hello "
    ∧ Conversation_lookup room0 d' = Some c'
    ∧ lm_content (lastMessage c') = Js.trim " Hello ".
Proof.
  destruct (rest_send_without_gateway store0 room0 conv0 " Hello " alice env0
              eq_refl eq_refl eq_refl hello_not_blank)
    as (m & d' & c' & H1 & H2 & _ & _ & H3 & _ & H4 & H5 & _).
  exists m, d', c'. rewrite H5. repeat split; assumption.
Defined.

(** Alice sends over her socket; Bob, in the room, gets one event of each
    kind, Carol, outside it, gets nothing. *)
Lemma broadcast_reaches_room_once_witness :
  (count_received is_message_new "sock-bob"
     (out_deliveries (on_message_send env0 alice_socket
                        (Some (Js.JStr room0, Js.JStr " Hello ")) world0)) = 1%nat
   ∧ count_received is_conversation_update "sock-bob"
       (out_deliveries (on_message_send env0 alice_socket
                          (Some (Js.JStr room0, Js.JStr " Hello ")) world0)) = 1%nat)
  ∧ received "sock-carol"
      (out_deliveries (on_message_send env0 alice_socket
                         (Some (Js.JStr room0, Js.JStr " Hello ")) world0)) = [].
Proof.
  split.
  - destruct (broadcast_reaches_room_once store0 room0 conv0 " Hello " alice env0
                eq_refl eq_refl eq_refl hello_not_blank (Some gateway0)
                alice_socket world0 "sock-bob" eq_refl eq_refl)
      as (_ & _ & H & _).
    destruct (H bob_in_room0) as (H1 & H2 & _). by split.
  - destruct (broadcast_reaches_room_once store0 room0 conv0 " Hello " alice env0
                eq_refl eq_refl eq_refl hello_not_blank (Some gateway0)
                alice_socket world0 "sock-carol" eq_refl eq_refl)
      as (_ & _ & _ & H).
    exact (H carol_not_in_room0).
Defined.

(** C2 as stated fails when the send spells the id of the conversation
    otherwise than the room was joined under. Bob's socket is in the room
    named by the id of [conv0] as the server prints it; Alice sends to that
    conversation with the id in capitals. On both paths the send succeeds
    and the message is stored in [conv0], and Bob's socket is handed
    nothing. *)
Lemma other_spelling_reaches_nobody :
  "sock-bob" ∈ room_members gateway0 (conv_id conv0)
  ∧ Conversation_lookup room0_capitals store0 = Some conv0
  ∧ status (post_message (Some gateway0) env0 alice room0_capitals
              (Js.JStr "Hello") store0).1.1 = 201
  ∧ conversation
      <$> messages (post_message (Some gateway0) env0 alice room0_capitals
                      (Js.JStr "Hello") store0).1.2
    = [conv_id conv0]
  ∧ received "sock-bob"
      (post_message (Some gateway0) env0 alice room0_capitals
         (Js.JStr "Hello") store0).2 = []
  ∧ conversation
      <$> messages (db (out_world (on_message_send env0 alice_socket
                         (Some (Js.JStr room0_capitals, Js.JStr "Hello")) world0)))
    = [conv_id conv0]
  ∧ received "sock-bob"
      (out_deliveries (on_message_send env0 alice_socket
                         (Some (Js.JStr room0_capitals, Js.JStr "Hello")) world0))
    = [].
Proof.
  split; [exact bob_in_room0|]. repeat split; vm_compute; reflexivity.
Qed.

(** ** Databases that honour the sort *)

Lemma insert_by_Permutation before x l :
  Permutation (insert_by before x l) (x :: l).
Proof.
  induction l as [|y r IH]; simpl; [done|].
  destruct (before (createdAt x) (createdAt y)); [done|].
  rewrite IH. apply perm_swap.
Qed.

Lemma sort_by_Permutation before l : Permutation (sort_by before l) l.
Proof.
  induction l as [|x l IH]; simpl; [done|].
  rewrite insert_by_Permutation. by constructor.
Qed.

Section InsertSorted.

Variable before : Z → Z → bool.
Hypothesis before_true : ∀ a b, before a b = true → a <= b.
Hypothesis before_false : ∀ a b, before a b = false → b <= a.

Lemma insert_by_HdRel a x l :
  stamp_le a x → HdRel stamp_le a l → HdRel stamp_le a (insert_by before x l).
Proof.
  intros Hax Hl. destruct l as [|y r]; simpl; [by constructor|].
  destruct (before (createdAt x) (createdAt y)); constructor; [done|].
  by inversion Hl.
Qed.

Lemma insert_by_Sorted x l :
  Sorted stamp_le l → Sorted stamp_le (insert_by before x l).
Proof.
  induction 1 as [|y r Hr IH Hhd]; simpl.
  - by repeat constructor.
  - destruct (before (createdAt x) (createdAt y)) eqn:E.
    + constructor; [by constructor|]. constructor. by apply before_true.
    + constructor; [exact IH|].
      apply insert_by_HdRel; [|exact Hhd]. by apply before_false.
Qed.

Lemma sort_by_Sorted l : Sorted stamp_le (sort_by before l).
Proof.
  induction l as [|x l IH]; simpl; [constructor|]. by apply insert_by_Sorted.
Qed.

End InsertSorted.

Lemma sort_ties_in_order_contract : sort_contract sort_ties_in_order.
Proof.
  intros l. split; [apply sort_by_Permutation|].
  apply sort_by_Sorted; intros a b H; lia.
Qed.

Lemma sort_ties_reversed_contract : sort_contract sort_ties_reversed.
Proof.
  intros l. split; [apply sort_by_Permutation|].
  apply sort_by_Sorted; intros a b H; lia.
Qed.

(** A list whose stamps strictly increase has one sorted arrangement. *)
Lemma sorted_arrangement_unique (l l' : list Message) :
  StronglySorted stamp_lt l →
  Permutation l' l →
  Sorted stamp_le l' →
  l' = l.
Proof.
  intros Hl. revert l'.
  induction Hl as [|x xs Hxs IH Hx]; intros l' Hp Hs.
  - by apply Permutation_nil_r in Hp.
  - destruct l' as [|y ys].
    { by apply Permutation_nil_cons in Hp. }
    apply Sorted_StronglySorted in Hs;
      [|intros a b e; unfold stamp_le; lia].
    apply StronglySorted_inv in Hs as [Hys Hy].
    assert (y = x) as ->.
    { assert (y ∈ x :: xs) as Hyin by (rewrite <- Hp; left).
      apply elem_of_cons in Hyin as [->|Hyin]; [done|].
      assert (createdAt x < createdAt y) as Hlt.
      { rewrite List.Forall_forall in Hx. apply (Hx y). by apply list_elem_of_In. }
      assert (x ∈ y :: ys) as Hxin by (rewrite Hp; left).
      apply elem_of_cons in Hxin as [->|Hxin]; [lia|].
      rewrite List.Forall_forall in Hy.
      assert (createdAt y <= createdAt x)
        by (apply (Hy x); by apply list_elem_of_In).
      lia. }
    f_equal. apply IH.
    + by apply Permutation_cons_inv in Hp.
    + by apply StronglySorted_Sorted.
Qed.

(** ** A run of sends *)

Lemma isParticipant_participants c c' uid :
  participants c' = participants c → isParticipant c' uid = isParticipant c uid.
Proof. unfold isParticipant. by intros ->. Qed.

Lemma Message_find_snoc id d d' m :
  messages d' = (messages d ++ [m])%list → conversation m = canonical id →
  Message_find id d' = (Message_find id d ++ [m])%list.
Proof.
  unfold Message_find. intros -> Hm.
  rewrite List.filter_app. simpl. by rewrite Hm, String.eqb_refl.
Qed.

Lemma rest_send_effect d conversationId c text author env :
  isValid conversationId = true →
  Conversation_lookup conversationId d = Some c →
  isParticipant c (u_id author) = true →
  Js.trim text ≠ "" →
  let d' := (post_message None env author conversationId (Js.JStr text) d).1.2 in
  Message_find conversationId d'
  = (Message_find conversationId d
     ++ [sent_message conversationId (env, author, text)])%list
  ∧ ∃ c', Conversation_lookup conversationId d' = Some c'
          ∧ participants c' = participants c.
Proof.
  intros Hv Hf Hm Ht d'. subst d'.
  rewrite (rest_send_created d conversationId c text author env Hv Hf Hm Ht).
  cbv zeta. cbn [fst snd]. split.
  - apply Message_find_snoc; [|done].
    apply (messages_after_persist d conversationId c text author env None).
  - destruct (summary_after_persist d conversationId c text author env Hf None)
      as (c' & H1 & H2 & _).
    by exists c'.
Qed.

Lemma rest_sends_cons conversationId env author text sends d :
  rest_sends conversationId ((env, author, text) :: sends) d
  = rest_sends conversationId sends
      (post_message None env author conversationId (Js.JStr text) d).1.2.
Proof. reflexivity. Qed.

Lemma rest_sends_effect conversationId sends : ∀ d c,
  isValid conversationId = true →
  Conversation_lookup conversationId d = Some c →
  Forall (fun s : Env * User * string =>
            isParticipant c (u_id s.1.2) = true ∧ Js.trim s.2 ≠ "") sends →
  Message_find conversationId (rest_sends conversationId sends d)
  = (Message_find conversationId d ++ (sent_message conversationId <$> sends))%list
  ∧ ∃ c', Conversation_lookup conversationId (rest_sends conversationId sends d)
          = Some c'
          ∧ participants c' = participants c.
Proof.
  induction sends as [|[[env author] text] sends IH]; intros d c Hv Hf Hall.
  - simpl. rewrite app_nil_r. split; [done|]. by exists c.
  - apply Forall_cons in Hall as [[Hm Ht] Hall]. simpl in Hm, Ht.
    destruct (rest_send_effect d conversationId c text author env Hv Hf Hm Ht)
      as (Hfind & c1 & Hc1 & Hp1).
    rewrite rest_sends_cons.
    destruct (IH _ c1 Hv Hc1) as (Hfind' & c2 & Hc2 & Hp2).
    { eapply Forall_impl; [exact Hall|]. intros s [H1 H2]. split; [|done].
      by rewrite (isParticipant_participants c c1). }
    split.
    + rewrite Hfind', Hfind. by rewrite <- app_assoc.
    + exists c2. split; [done|]. by rewrite Hp2.
Qed.

(** ** Reading a conversation's history *)

Lemma pm_doc_populate d (l : list Message) :
  pm_doc <$> (populate_sender d <$> l) = l.
Proof. induction l as [|m l IH]; [done|]. by rewrite !fmap_cons, IH. Qed.

Section HistoryFacts.

Variable sort_createdAt : list Message → list Message.
Hypothesis honoured : sort_contract sort_createdAt.

Lemma get_messages_malformed user conversationId d :
  isValid conversationId = false →
  get_messages sort_createdAt user conversationId d
  = respond 400 (Failure "Invalid conversation ID").
Proof. intros H. unfold get_messages, get_messages_try. by rewrite H. Qed.

Lemma get_messages_unknown user conversationId d :
  isValid conversationId = true →
  Conversation_lookup conversationId d = None →
  get_messages sort_createdAt user conversationId d
  = respond 404 (Failure "Conversation not found").
Proof.
  intros H Hf. unfold get_messages, get_messages_try. rewrite H. simpl negb.
  cbv iota. by rewrite (Conversation_findById_valid _ _ H), bind_ret, Hf.
Qed.

Lemma get_messages_forbidden user conversationId d c :
  isValid conversationId = true →
  Conversation_lookup conversationId d = Some c →
  isParticipant c (u_id user) = false →
  get_messages sort_createdAt user conversationId d
  = respond 403 (Failure "You are not part of this conversation").
Proof.
  intros H Hf Hp. unfold get_messages, get_messages_try. rewrite H. simpl negb.
  cbv iota. by rewrite (Conversation_findById_valid _ _ H), bind_ret, Hf, Hp.
Qed.

Lemma get_messages_found user conversationId d c :
  isValid conversationId = true →
  Conversation_lookup conversationId d = Some c →
  isParticipant c (u_id user) = true →
  get_messages sort_createdAt user conversationId d
  = respond 200
      (MessagesBody (populate_sender d
                       <$> sort_createdAt (Message_find conversationId d))).
Proof.
  intros H Hf Hp. unfold get_messages, get_messages_try. rewrite H. simpl negb.
  cbv iota. by rewrite (Conversation_findById_valid _ _ H), bind_ret, Hf, Hp.
Qed.

(** C8, as the handler has it. An authenticated [GET] of a conversation's
    messages answers 400 when the id is not a well-formed object id, 404 when
    it is well formed and matches no conversation, 403 when the conversation
    exists and the caller is not one of its participants, and otherwise 200
    with exactly the conversation's messages in non-decreasing [createdAt]
    order. *)
Theorem history_status user conversationId d :
  (isValid conversationId = false →
   status (get_messages sort_createdAt user conversationId d) = 400)
  ∧ (isValid conversationId = true →
     Conversation_lookup conversationId d = None →
     status (get_messages sort_createdAt user conversationId d) = 404)
  ∧ (∀ c, isValid conversationId = true →
          Conversation_lookup conversationId d = Some c →
          isParticipant c (u_id user) = false →
          status (get_messages sort_createdAt user conversationId d) = 403)
  ∧ (∀ c, isValid conversationId = true →
          Conversation_lookup conversationId d = Some c →
          isParticipant c (u_id user) = true →
          status (get_messages sort_createdAt user conversationId d) = 200
          ∧ ∃ h, returned_history (get_messages sort_createdAt user conversationId d)
                 = Some h
                 ∧ Permutation h (Message_find conversationId d)
                 ∧ Sorted stamp_le h).
Proof.
  split; [|split; [|split]].
  - intros H. by rewrite get_messages_malformed.
  - intros H Hf. by rewrite get_messages_unknown.
  - intros c H Hf Hp. by rewrite (get_messages_forbidden _ _ _ c).
  - intros c H Hf Hp. rewrite (get_messages_found _ _ _ c H Hf Hp).
    split; [done|]. eexists. split.
    + unfold returned_history. simpl. by rewrite pm_doc_populate.
    + apply honoured.
Qed.

(** C5, as the query has it. The history of a conversation holds exactly
    its messages in non-decreasing [createdAt] order; the order among equal
    stamps is whatever the database returns. When the stamps strictly
    increase in insertion order the history is the insertion order; in
    particular, after a run of sends each awaited before the next, with
    strictly increasing stamps, the history ends with the messages sent, in
    send order. *)
Theorem history_order viewer conversationId c d :
  isValid conversationId = true →
  Conversation_lookup conversationId d = Some c →
  isParticipant c (u_id viewer) = true →
  (∃ h, returned_history (get_messages sort_createdAt viewer conversationId d)
        = Some h
        ∧ Permutation h (Message_find conversationId d)
        ∧ Sorted stamp_le h
        ∧ (StronglySorted stamp_lt
             (Message_find conversationId d) →
           h = Message_find conversationId d))
  ∧ (∀ sends,
       Forall (fun s : Env * User * string =>
                 isParticipant c (u_id s.1.2) = true ∧ Js.trim s.2 ≠ "") sends →
       StronglySorted stamp_lt
         (Message_find conversationId d
          ++ (sent_message conversationId <$> sends))%list →
       returned_history
         (get_messages sort_createdAt viewer conversationId
            (rest_sends conversationId sends d))
       = Some (Message_find conversationId d
               ++ (sent_message conversationId <$> sends))%list).
Proof.
  intros Hv Hf Hp.
  assert (∀ d' c', Conversation_lookup conversationId d' = Some c' →
                   participants c' = participants c →
                   returned_history
                     (get_messages sort_createdAt viewer conversationId d')
                   = Some (sort_createdAt (Message_find conversationId d')))
    as Hget.
  { intros d' c' Hf' Hp'. rewrite (get_messages_found _ _ _ c' Hv Hf').
    - unfold returned_history. simpl. by rewrite pm_doc_populate.
    - by rewrite (isParticipant_participants c c'). }
  split.
  - exists (sort_createdAt (Message_find conversationId d)).
    split; [by apply (Hget d c)|].
    destruct (honoured (Message_find conversationId d)) as [H1 H2].
    repeat split; [done..|].
    intros Hs. by apply sorted_arrangement_unique.
  - intros sends Hall Hs.
    destruct (rest_sends_effect conversationId sends d c Hv Hf Hall)
      as (Hfind & c' & Hc' & Hp').
    rewrite (Hget _ c' Hc' Hp'). f_equal. rewrite Hfind.
    destruct (honoured (Message_find conversationId d
                        ++ (sent_message conversationId <$> sends))%list)
      as [H1 H2].
    by apply sorted_arrangement_unique.
Qed.

End HistoryFacts.

(** Carol is refused, an id nobody has is not found, a short id is
    malformed, and Bob reads the two messages of [conv0], also when he spells
    its id in capitals. *)
Lemma history_status_witness :
  status (get_messages sort_ties_in_order carol room0 store0) = 403
  ∧ status (get_messages sort_ties_in_order alice
              "0000000000000000000000ff" store0) = 404
  ∧ status (get_messages sort_ties_in_order alice "c0c0" store0) = 400
  ∧ content
      <$> Message_find room0_capitals
            (rest_sends room0 [(env0, alice, "one"); (env1, bob, " two ")] store0)
    = ["one"; "two"]
  ∧ status (get_messages sort_ties_in_order bob room0_capitals
              (rest_sends room0 [(env0, alice, "one"); (env1, bob, " two ")]
                 store0)) = 200
  ∧ ∃ h, returned_history
           (get_messages sort_ties_in_order bob room0_capitals
              (rest_sends room0 [(env0, alice, "one"); (env1, bob, " two ")]
                 store0)) = Some h
         ∧ Permutation h
             (Message_find room0_capitals
                (rest_sends room0 [(env0, alice, "one"); (env1, bob, " two ")]
                   store0))
         ∧ Sorted stamp_le h.
Proof.
  split; [|split; [|split; [|split]]].
  - destruct (history_status sort_ties_in_order sort_ties_in_order_contract
                carol room0 store0) as (_ & _ & H & _).
    apply (H conv0); reflexivity.
  - destruct (history_status sort_ties_in_order sort_ties_in_order_contract
                alice "0000000000000000000000ff" store0) as (_ & H & _).
    apply H; reflexivity.
  - destruct (history_status sort_ties_in_order sort_ties_in_order_contract
                alice "c0c0" store0) as (H & _).
    apply H; reflexivity.
  - reflexivity.
  - destruct (history_status sort_ties_in_order sort_ties_in_order_contract
                bob room0_capitals
                (rest_sends room0 [(env0, alice, "one"); (env1, bob, " two ")]
                   store0)) as (_ & _ & _ & H).
    apply (H (default conv0
                (Conversation_lookup room0_capitals
                   (rest_sends room0 [(env0, alice, "one"); (env1, bob, " two ")]
                      store0)))); reflexivity.
Defined.

(** C8 as stated fails for an id that is not a well-formed object id: it
    resolves to no conversation, and the answer is 400, not 404. *)
Lemma malformed_id_is_400_not_404 :
  Conversation_lookup "xyz" store0 = None
  ∧ status (get_messages sort_ties_in_order alice "xyz" store0) = 400
  ∧ status (get_messages sort_ties_in_order alice "xyz" store0) ≠ 404.
Proof. repeat split; try reflexivity. discriminate. Qed.

Lemma history_order_witness :
  returned_history
    (get_messages sort_ties_in_order bob room0
       (rest_sends room0 [(env0, alice, "one"); (env1, bob, " two ")] store0))
  = Some [sent_message room0 (env0, alice, "one");
          sent_message room0 (env1, bob, " two ")].
Proof.
  destruct (history_order sort_ties_in_order sort_ties_in_order_contract
              bob room0 conv0 store0 eq_refl eq_refl eq_refl) as [_ H].
  apply (H [(env0, alice, "one"); (env1, bob, " two ")]).
  - repeat constructor; vm_compute; discriminate.
  - repeat constructor; simpl; lia.
Defined.

(** C5 as stated fails on a tie: two sends awaited one after the other whose
    stamps fall in the same millisecond, read through a database that honours
    the sort and returns equal stamps newest first, come back in the reverse
    of send order. *)
Lemma tie_not_in_insertion_order :
  sort_contract sort_ties_reversed
  ∧ content <$> Message_find room0
        (rest_sends room0
           [(env_tick_a, alice, "first"); (env_tick_b, alice, "second")] store0)
    = ["first"; "second"]
  ∧ fmap (M := option) (fmap content)
      (returned_history
         (get_messages sort_ties_reversed bob room0
            (rest_sends room0
               [(env_tick_a, alice, "first"); (env_tick_b, alice, "second")]
               store0)))
    = Some ["second"; "first"].
Proof.
  split; [apply sort_ties_reversed_contract|]. split; reflexivity.
Qed.

(** ** The conversation collection under sequential handling *)

Lemma fmap_map_ext {A B C} (g : B → C) (f : A → B) (h : A → C) (l : list A) :
  (∀ x, x ∈ l → g (f x) = h x) → g <$> List.map f l = h <$> l.
Proof.
  induction l as [|x l IH]; intros H; [done|].
  simpl. f_equal.
  - apply H. left.
  - apply IH. intros y Hy. apply H. by right.
Qed.

Lemma conversation_ids_skeleton d : conversation_ids d = (skeleton d).*1.
Proof.
  unfold conversation_ids, skeleton. rewrite <- list_fmap_compose.
  by apply list_fmap_ext.
Qed.

Lemma pair_count_skeleton a b d :
  length (conversations_of_pair a b d) = pair_count a b (skeleton d).
Proof.
  unfold conversations_of_pair, pair_count, skeleton, same_pair.
  induction (conversations d) as [|c l IH]; [done|].
  rewrite fmap_cons. simpl.
  destruct (bool_decide _); simpl; by rewrite IH.
Qed.

Lemma well_formed_skeleton d :
  well_formed d
  ↔ Forall (fun e : string * list string => ∃ a b, e.2 = [a; b]) (skeleton d)
    ∧ NoDup (skeleton d).*1.
Proof.
  unfold well_formed. rewrite conversation_ids_skeleton.
  unfold skeleton. by rewrite Forall_fmap.
Qed.

Lemma invariant_skeleton d d' :
  skeleton d' = skeleton d → invariant d → invariant d'.
Proof.
  intros Hs [Hw Ho]. split.
  - apply well_formed_skeleton. rewrite Hs. by apply well_formed_skeleton.
  - intros a b. rewrite pair_count_skeleton, Hs, <- pair_count_skeleton. apply Ho.
Qed.

Lemma grows_refl d : grows d d.
Proof. by split. Qed.

Lemma grows_trans d1 d2 d3 : grows d1 d2 → grows d2 d3 → grows d1 d3.
Proof.
  intros [H1 H2] [H3 H4]. split; [congruence|]. by etrans.
Qed.

Lemma grows_same_skeleton d d' :
  users d' = users d → skeleton d' = skeleton d → grows d d'.
Proof. intros H1 H2. split; [done|]. by rewrite H2. Qed.

Lemma NoDup_fmap_same {A B} (f : A → B) (l : list A) x y :
  NoDup (f <$> l) → x ∈ l → y ∈ l → f x = f y → x = y.
Proof.
  induction l as [|a l IH]; intros Hnd Hx Hy Hf.
  - by apply elem_of_nil in Hx.
  - rewrite fmap_cons in Hnd. apply NoDup_cons in Hnd as [Ha Hnd].
    apply elem_of_cons in Hx as [->|Hx]; apply elem_of_cons in Hy as [->|Hy].
    + done.
    + destruct Ha. rewrite Hf. by apply list_elem_of_fmap_2.
    + destruct Ha. rewrite <- Hf. by apply list_elem_of_fmap_2.
    + by apply IH.
Qed.

(** Saving a stored conversation with its id and participants untouched
    leaves the skeleton as it was. *)
Lemma Conversation_save_skeleton now c c0 d :
  NoDup (conversation_ids d) →
  c0 ∈ conversations d → conv_id c = conv_id c0 →
  participants c = participants c0 →
  skeleton (Conversation_save now c d).2 = skeleton d
  ∧ users (Conversation_save now c d).2 = users d.
Proof.
  intros Hnd Hin Hid Hp. split; [|done].
  unfold skeleton, Conversation_save. cbn [snd conversations].
  apply fmap_map_ext. intros x Hx.
  destruct (String.eqb (conv_id x) (conv_id c)) eqn:E; [|done].
  apply String.eqb_eq in E. simpl.
  assert (x = c0) as ->.
  { apply (NoDup_fmap_same conv_id (conversations d)); [done..|congruence]. }
  by rewrite Hid, Hp.
Qed.

Lemma persist_skeleton gateway env c cid author text d :
  NoDup (conversation_ids d) →
  Conversation_lookup cid d = Some c →
  skeleton (persist_and_broadcast gateway env c cid author text d).1.2 = skeleton d
  ∧ users (persist_and_broadcast gateway env c cid author text d).1.2 = users d.
Proof.
  intros Hnd Hf. rewrite persist_and_broadcast_unfold. cbv zeta. cbn [fst snd].
  exact (Conversation_save_skeleton (now_save env)
           (set_lastMessage c text (u_id author)
              (createdAt (Message_create env cid (u_id author) text d).1))
           c (Message_create env cid (u_id author) text d).2
           Hnd (Conversation_lookup_elem cid d c Hf) eq_refl eq_refl).
Qed.

Lemma post_message_skeleton app_io env user cid content d :
  NoDup (conversation_ids d) →
  skeleton (post_message app_io env user cid content d).1.2 = skeleton d
  ∧ users (post_message app_io env user cid content d).1.2 = users d.
Proof.
  intros Hnd. unfold post_message, post_message_try.
  destruct (blank_content content) as [e|[|]]; [done..|]. rewrite bind_ret.
  destruct (isValid cid) eqn:Hv; [|done]. simpl negb. cbv iota.
  rewrite (Conversation_findById_valid _ _ Hv), bind_ret.
  destruct (Conversation_lookup cid d) as [c|] eqn:Hf; [|done].
  destruct (isParticipant c (u_id user)); [|done]. simpl negb. cbv iota.
  destruct (js_trim content) as [e|text]; [done|]. rewrite bind_ret.
  pose proof (persist_skeleton app_io env c cid user text d Hnd Hf) as H.
  by destruct (persist_and_broadcast _ _ _ _ _ _ _) as [[pm d'] out].
Qed.

Lemma on_message_send_skeleton env sock payload w :
  NoDup (conversation_ids (db w)) →
  skeleton (db (out_world (on_message_send env sock payload w))) = skeleton (db w)
  ∧ users (db (out_world (on_message_send env sock payload w))) = users (db w).
Proof.
  intros Hnd. unfold on_message_send.
  destruct payload as [[v content]|]; [|done].
  unfold message_send_try.
  destruct (Js.truthy v); [|done]. simpl negb. cbv iota.
  destruct (blank_content content) as [e|[|]]; [done..|]. rewrite bind_ret.
  destruct (Conversation_findById v (db w)) as [e|[c|]] eqn:Hf; [done| |done].
  rewrite bind_ret.
  destruct (isParticipant c (userId_of sock)); [|done]. simpl negb. cbv iota.
  destruct (js_trim content) as [e|text]; [done|]. rewrite bind_ret.
  apply Conversation_findById_Some in Hf as (cid & -> & Hv & Hf).
  pose proof (persist_skeleton (Some (io w)) env c cid (sock_user sock) text
                (db w) Hnd Hf) as H.
  simpl Js.toString.
  by destruct (persist_and_broadcast _ _ _ _ _ _ _) as [[pm d'] out].
Qed.

(** ** Creating a conversation *)

Lemma create_lookup_pending user participantId postId d p :
  create_conversation_lookup user participantId postId d = inr p →
  ∃ pid, participantId = Some pid ∧ isValid pid = true ∧ pid ≠ u_id user
         ∧ pend_user p = user ∧ pend_participantId p = pid
         ∧ fst <$> (fst <$> pend_found p)
           = Conversation_findOne_all (u_id user) pid d.
Proof.
  unfold create_conversation_lookup.
  destruct participantId as [pid|]; [|done].
  destruct (negb (Js.truthy (Js.JStr pid)) || negb (isValid pid)) eqn:E; [done|].
  apply orb_false_elim in E as [_ E]. apply negb_false_iff in E.
  destruct (String.eqb pid (u_id user)) eqn:Hne; [done|].
  apply String.eqb_neq in Hne.
  destruct (User_findById pid d); [|done].
  intros [= <-]. exists pid. simpl. repeat split; try done.
  by destruct (Conversation_findOne_all _ _ _).
Qed.

Lemma create_lookup_proceeds user pid postId d :
  isValid pid = true → pid ≠ u_id user → is_Some (User_findById pid d) →
  ∃ p, create_conversation_lookup user (Some pid) postId d = inr p.
Proof.
  intros Hv Hne [u Hu]. unfold create_conversation_lookup.
  assert (Js.truthy (Js.JStr pid) = true) as ->.
  { destruct pid; [discriminate Hv | reflexivity]. }
  rewrite Hv. simpl orb. cbv iota.
  apply String.eqb_neq in Hne. rewrite Hne, Hu. eauto.
Qed.

Lemma create_commit_cases env p d :
  match fst <$> (fst <$> pend_found p) with
  | None =>
      (create_conversation_commit env p d).2
      = (Conversation_create env (u_id (pend_user p)) (pend_participantId p)
           (pend_relatedPost p) d).2
      ∧ status (create_conversation_commit env p d).1 = 200
      ∧ returned_conversation (create_conversation_commit env p d).1
        = Some (fresh_id env)
  | Some c =>
      status (create_conversation_commit env p d).1 = 200
      ∧ returned_conversation (create_conversation_commit env p d).1
        = Some (conv_id c)
      ∧ ((create_conversation_commit env p d).2 = d
         ∨ ∃ q, (create_conversation_commit env p d).2
                = (Conversation_save (now_save env) (set_post c q) d).2)
  end.
Proof.
  unfold create_conversation_commit.
  destruct (pend_found p) as [[[c members] populated]|]; simpl.
  - destruct (pend_relatedPost p) as [q|], populated as [q'|]; simpl;
      repeat split; eauto.
  - by repeat split.
Qed.

Lemma matches_all_pair a b c :
  participants c = [a; canonical b] ∨ participants c = [canonical b; a] →
  matches_all a b c = true.
Proof.
  unfold matches_all. intros [-> | ->]; simpl;
    rewrite !String.eqb_refl; simpl; by rewrite ?orb_true_r.
Qed.

Lemma pair_count_app a b l l' :
  pair_count a b (l ++ l') = (pair_count a b l + pair_count a b l')%nat.
Proof. unfold pair_count. by rewrite List.filter_app, length_app. Qed.

Lemma findOne_all_None_count a b d :
  Conversation_findOne_all a b d = None →
  pair_count a (canonical b) (skeleton d) = 0%nat
  ∧ pair_count (canonical b) a (skeleton d) = 0%nat.
Proof.
  unfold Conversation_findOne_all, pair_count, skeleton. intros H.
  pose proof (find_none _ _ H) as Hn. clear H.
  induction (conversations d) as [|c l IH]; [done|].
  rewrite fmap_cons. simpl.
  assert (matches_all a b c = false) as Hc by (apply Hn; by left).
  rewrite !bool_decide_eq_false_2.
  - apply IH. intros x Hx. apply Hn. by right.
  - intros Hp. rewrite matches_all_pair in Hc; [done|]. simpl in Hp. tauto.
  - intros Hp. by rewrite matches_all_pair in Hc.
Qed.

Lemma Conversation_create_skeleton env a b q d :
  skeleton (Conversation_create env a b q d).2
  = (skeleton d ++ [(fresh_id env, [a; canonical b])])%list
  ∧ users (Conversation_create env a b q d).2 = users d.
Proof. unfold skeleton. simpl. by rewrite fmap_app. Qed.

Lemma Conversation_create_invariant env a b q d :
  invariant d → fresh_id env ∉ conversation_ids d →
  Conversation_findOne_all a b d = None →
  invariant (Conversation_create env a b q d).2.
Proof.
  intros [Hw Ho] Hfresh Hnone.
  destruct (Conversation_create_skeleton env a b q d) as [Hs _].
  apply well_formed_skeleton in Hw as [Hf Hnd].
  rewrite conversation_ids_skeleton in Hfresh.
  split.
  - apply well_formed_skeleton. rewrite Hs. split.
    + apply Forall_app. split; [done|]. repeat constructor.
      by exists a, (canonical b).
    + rewrite fmap_app. apply NoDup_app. split; [done|]. split.
      * intros x Hx Hx'. simpl in Hx'. apply list_elem_of_singleton in Hx'.
        by subst.
      * simpl. apply NoDup_singleton.
  - intros x y. rewrite pair_count_skeleton, Hs, pair_count_app.
    specialize (Ho x y). rewrite pair_count_skeleton in Ho.
    destruct (findOne_all_None_count a b d Hnone) as [H1 H2].
    unfold pair_count at 2. simpl.
    destruct (bool_decide _) eqn:E; simpl; [|lia].
    apply bool_decide_eq_true_1 in E as [E|E]; injection E as E1 E2;
      subst x y; lia.
Qed.

Lemma create_conversation_step env user participantId postId d :
  invariant d → fresh_id env ∉ conversation_ids d →
  invariant (create_conversation env user participantId postId d).2
  ∧ grows d (create_conversation env user participantId postId d).2.
Proof.
  intros Hinv Hfresh. unfold create_conversation.
  destruct (create_conversation_lookup user participantId postId d) as [r|p] eqn:E.
  { split; [done | apply grows_refl]. }
  apply create_lookup_pending in E as (pid & _ & _ & Hne & Hu & Hp & Hfound).
  pose proof (create_commit_cases env p d) as Hc. rewrite Hfound in Hc.
  destruct (Conversation_findOne_all (u_id user) pid d) as [c|] eqn:Hf.
  - destruct Hc as (_ & _ & [-> | [q ->]]).
    { split; [done | apply grows_refl]. }
    apply find_some in Hf as [Hin _]. apply list_elem_of_In in Hin.
    destruct (Conversation_save_skeleton (now_save env) (set_post c q) c d)
      as [Hs Husers]; [apply Hinv|done..|].
    split; [by apply (invariant_skeleton d) | by apply grows_same_skeleton].
  - destruct Hc as (-> & _). rewrite Hu, Hp.
    split; [by apply Conversation_create_invariant|].
    destruct (Conversation_create_skeleton env (u_id user) pid
                (pend_relatedPost p) d) as [Hs Husers].
    split; [done|]. rewrite Hs. by apply prefix_app_r.
Qed.

Lemma handle_step r w :
  invariant (db w) → admissible r w →
  invariant (db (handle r w)) ∧ grows (db w) (db (handle r w)).
Proof.
  intros Hinv Hadm.
  assert (∀ d', skeleton d' = skeleton (db w) ∧ users d' = users (db w) →
                invariant d' ∧ grows (db w) d') as Hsame.
  { intros d' [Hs Hu]. split; [by apply (invariant_skeleton (db w))|].
    by apply grows_same_skeleton. }
  destruct r as [sock|sock v|sock v|sock|env sock payload|env user pid qid
                |env user cid content]; simpl.
  - by apply Hsame.
  - unfold on_conversation_join. destruct (Js.truthy v); by apply Hsame.
  - unfold on_conversation_leave. destruct (Js.truthy v); by apply Hsame.
  - by apply Hsame.
  - apply Hsame. apply on_message_send_skeleton, Hinv.
  - apply create_conversation_step; [done|]. apply Hadm.
  - apply Hsame. apply post_message_skeleton, Hinv.
Qed.

Lemma evolves_invariant w w' :
  evolves w w' → invariant (db w) →
  invariant (db w') ∧ grows (db w) (db w').
Proof.
  induction 1 as [|w' r Hev IH Hadm]; intros Hinv.
  - split; [done | apply grows_refl].
  - destruct (IH Hinv) as [Hinv' Hg].
    destruct (handle_step r w' Hinv' Hadm) as [Hinv'' Hg'].
    split; [done|]. by apply (grows_trans _ (db w')).
Qed.

Lemma initial_invariant w : initial w → invariant (db w).
Proof.
  intros (Hc & _). repeat split.
  - unfold well_formed. rewrite Hc. constructor.
  - unfold conversation_ids. rewrite Hc. constructor.
  - intros a b. unfold conversations_of_pair. rewrite Hc. simpl. lia.
Qed.

Lemma reachable_invariant w : reachable w → invariant (db w).
Proof.
  intros (w0 & Hi & Hev).
  by apply (evolves_invariant w0 w Hev), initial_invariant.
Qed.

Lemma User_findById_users id d d' :
  users d' = users d → User_findById id d' = User_findById id d.
Proof. unfold User_findById. by intros ->. Qed.

Lemma skeleton_elem id P d :
  (id, P) ∈ skeleton d →
  ∃ c, c ∈ conversations d ∧ conv_id c = id ∧ participants c = P.
Proof.
  unfold skeleton. intros H. apply list_elem_of_fmap in H as (c & [= -> ->] & Hc).
  by exists c.
Qed.

(** [findOne] answers with the first conversation, in insertion order, that
    holds both ids; its skeleton entry is the first one that does. *)
Lemma findOne_all_skeleton a b d :
  List.find (holds_both a b) (skeleton d)
  = (fun c => (conv_id c, participants c)) <$> Conversation_findOne_all a b d.
Proof.
  unfold Conversation_findOne_all, skeleton.
  induction (conversations d) as [|c l IH]; [done|].
  rewrite fmap_cons. simpl. unfold holds_both at 1, matches_all at 1. simpl.
  destruct (_ && _); [done | exact IH].
Qed.

Lemma find_app_Some {A} (p : A → bool) l l' x :
  List.find p l = Some x → List.find p (l ++ l') = Some x.
Proof.
  induction l as [|y l IH]; simpl; [done|]. by destruct (p y).
Qed.

Lemma find_app_None {A} (p : A → bool) l l' :
  List.find p l = None → List.find p (l ++ l') = List.find p l'.
Proof.
  induction l as [|y l IH]; simpl; [done|]. by destruct (p y).
Qed.

Lemma find_pointwise {A} (p q : A → bool) l :
  (∀ x, p x = q x) → List.find p l = List.find q l.
Proof.
  intros H. induction l as [|y l IH]; simpl; [done|]. by rewrite H, IH.
Qed.

(** Between two stored users the query does not depend on who asks. *)
Lemma holds_both_users A B e :
  holds_both (u_id A) (u_id B) e = holds_both (u_id B) (u_id A) e.
Proof. unfold holds_both. rewrite !canonical_u_id. apply andb_comm. Qed.

(** A creation call that passes the checks answers with the first
    conversation that holds both ids, creating it when there is none. *)
Lemma create_returns_first env user pid q d :
  NoDup (conversation_ids d) → isValid pid = true → pid ≠ u_id user →
  is_Some (User_findById pid d) →
  status (create_conversation env user (Some pid) q d).1 = 200
  ∧ ∃ id P,
      returned_conversation (create_conversation env user (Some pid) q d).1
      = Some id
      ∧ List.find (holds_both (u_id user) pid)
          (skeleton (create_conversation env user (Some pid) q d).2)
        = Some (id, P).
Proof.
  intros Hnd Hv Hne Hu. unfold create_conversation.
  destruct (create_lookup_proceeds user pid q d Hv Hne Hu) as [p Hp].
  rewrite Hp. apply create_lookup_pending in Hp
    as (pid' & [= <-] & _ & _ & Hpu & Hpp & Hfound).
  pose proof (create_commit_cases env p d) as Hc. rewrite Hfound in Hc.
  pose proof (findOne_all_skeleton (u_id user) pid d) as Hsk.
  destruct (Conversation_findOne_all (u_id user) pid d) as [c|] eqn:Hf.
  - destruct Hc as (Hst & Hret & Hd). split; [done|].
    apply find_some in Hf as [Hin Hm]. apply list_elem_of_In in Hin.
    exists (conv_id c), (participants c). split; [done|].
    destruct Hd as [-> | [q' ->]]; [done|].
    by destruct (Conversation_save_skeleton (now_save env) (set_post c q') c d)
      as [-> _].
  - destruct Hc as (-> & Hst & Hret). split; [done|].
    exists (fresh_id env), [u_id user; canonical pid]. split; [done|].
    rewrite Hpu, Hpp.
    destruct (Conversation_create_skeleton env (u_id user) pid
                (pend_relatedPost p) d) as [-> _].
    rewrite find_app_None; [|done]. simpl. unfold holds_both. simpl.
    by rewrite !String.eqb_refl, ?orb_true_r.
Qed.

(** A later call finds the conversation the store lists first for the two
    ids. *)
Lemma create_finds_first env user pid q d id P :
  isValid pid = true → pid ≠ u_id user → is_Some (User_findById pid d) →
  List.find (holds_both (u_id user) pid) (skeleton d) = Some (id, P) →
  status (create_conversation env user (Some pid) q d).1 = 200
  ∧ returned_conversation (create_conversation env user (Some pid) q d).1
    = Some id.
Proof.
  intros Hv Hne Hu Hfind. unfold create_conversation.
  destruct (create_lookup_proceeds user pid q d Hv Hne Hu) as [p Hp].
  rewrite Hp. apply create_lookup_pending in Hp
    as (pid' & [= <-] & _ & _ & Hpu & Hpp & Hfound).
  pose proof (create_commit_cases env p d) as Hc. rewrite Hfound in Hc.
  rewrite findOne_all_skeleton in Hfind.
  destruct (Conversation_findOne_all (u_id user) pid d) as [c|]; [|done].
  injection Hfind as Hid _.
  destruct Hc as (Hst & Hret & _). split; [done|]. by rewrite Hret, Hid.
Qed.

(** C4, as the handler has it. When requests are handled one after the
    other, every reachable state has at most one conversation per unordered
    pair of participants; and once either of two distinct existing users has
    created a conversation with the other, any later creation call by either
    of them, whatever was handled in between, answers 200 with that same
    conversation. *)
Theorem one_conversation_per_pair :
  (∀ w, reachable w → one_per_pair (db w))
  ∧ (∀ w env1 env2 A B q1 q2 w2 caller other,
       reachable w → fresh_in env1 w →
       isValid (u_id A) = true → isValid (u_id B) = true → u_id A ≠ u_id B →
       is_Some (User_findById (u_id A) (db w)) →
       is_Some (User_findById (u_id B) (db w)) →
       evolves (handle (RestCreate env1 A (Some (u_id B)) q1) w) w2 →
       (caller = A ∧ other = B) ∨ (caller = B ∧ other = A) →
       ∃ id,
         status (create_conversation env1 A (Some (u_id B)) q1 (db w)).1 = 200
         ∧ returned_conversation
             (create_conversation env1 A (Some (u_id B)) q1 (db w)).1 = Some id
         ∧ status (create_conversation env2 caller (Some (u_id other)) q2
                     (db w2)).1 = 200
         ∧ returned_conversation
             (create_conversation env2 caller (Some (u_id other)) q2 (db w2)).1
           = Some id).
Proof.
  split.
  { intros w Hr. by apply reachable_invariant. }
  intros w env1 env2 A B q1 q2 w2 caller other Hr Hfresh HvA HvB Hne HA HB Hev Hwho.
  pose proof (reachable_invariant w Hr) as Hinv.
  destruct (create_returns_first env1 A (u_id B) q1 (db w))
    as (Hst1 & id & P & Hret1 & Hfirst); [apply Hinv|done|congruence|done|].
  destruct (handle_step (RestCreate env1 A (Some (u_id B)) q1) w Hinv Hfresh)
    as [Hinv1 Hg1].
  destruct (evolves_invariant _ _ Hev Hinv1) as [Hinv2 Hg2].
  pose proof (grows_trans _ _ _ Hg1 Hg2) as [Husers _].
  assert (List.find (holds_both (u_id A) (u_id B)) (skeleton (db w2))
          = Some (id, P)) as Hfirst2.
  { destruct Hg2 as [_ [extra ->]]. by apply find_app_Some. }
  exists id. split; [done|]. split; [done|].
  destruct Hwho as [[-> ->] | [-> ->]].
  - apply (create_finds_first env2 A (u_id B) q2 (db w2) id P);
      [done|congruence| |done].
    by rewrite (User_findById_users _ (db w) (db w2)).
  - apply (create_finds_first env2 B (u_id A) q2 (db w2) id P); [done|done| |].
    + by rewrite (User_findById_users _ (db w) (db w2)).
    + rewrite <- Hfirst2. apply find_pointwise. intros e.
      symmetry. apply holds_both_users.
Qed.

Lemma start_world_reachable : reachable start_world.
Proof. exists start_world. split; [done | constructor]. Qed.

Lemma env0_fresh_at_start : fresh_in env0 start_world.
Proof. split; [reflexivity|]. split; apply not_elem_of_nil. Qed.

Lemma one_conversation_per_pair_witness :
  ∃ id,
    returned_conversation
      (create_conversation env0 alice (Some (u_id bob)) None empty_store).1
    = Some id
    ∧ returned_conversation
        (create_conversation env1 bob (Some (u_id alice)) None
           (db (handle (RestCreate env0 alice (Some (u_id bob)) None)
                  start_world))).1
      = Some id.
Proof.
  destruct one_conversation_per_pair as [_ H].
  destruct (H start_world env0 env1 alice bob None None
              (handle (RestCreate env0 alice (Some (u_id bob)) None) start_world)
              bob alice start_world_reachable env0_fresh_at_start
              eq_refl eq_refl)
    as (id & _ & H1 & _ & H2).
  - discriminate.
  - by eexists.
  - by eexists.
  - constructor.
  - by right.
  - by exists id.
Defined.

(** Run without interleaving, the loop is the endpoint. *)
Lemma run_loop_one_at_a_time user pid q env d :
  loop_db (run_loop [Begin user pid q; Resume env 0] d)
  = (create_conversation env user pid q d).2.
Proof.
  unfold run_loop, create_conversation. simpl.
  by destruct (create_conversation_lookup user pid q d).
Qed.

(** C4 as stated fails when two creation requests overlap: Alice's and
    Bob's handlers both look up the pair before either creates, and the
    collection ends with two conversations between them. *)
Lemma overlapping_creations_make_two :
  length (conversations_of_pair (u_id alice) (u_id bob)
            (loop_db (run_loop overlapping_schedule empty_store))) = 2%nat
  ∧ ¬ one_per_pair (loop_db (run_loop overlapping_schedule empty_store)).
Proof.
  assert (length (conversations_of_pair (u_id alice) (u_id bob)
            (loop_db (run_loop overlapping_schedule empty_store))) = 2%nat) as H
    by (vm_compute; reflexivity).
  split; [exact H|].
  intros Hone. specialize (Hone (u_id alice) (u_id bob)). rewrite H in Hone. lia.
Qed.

(** * Further properties of the gateway *)

(** ** Room membership *)

Lemma room_members_join_at sid room srv room' :
  room_members (socket_join sid room srv) room'
  = if decide (room' = room) then {[sid]} ∪ room_members srv room
    else room_members srv room'.
Proof.
  unfold room_members at 1, socket_join. simpl.
  destruct (decide (room' = room)) as [->|Hne].
  - by rewrite lookup_insert_eq.
  - by rewrite lookup_insert_ne.
Qed.

Lemma room_members_leave_at sid room srv room' :
  room_members (socket_leave sid room srv) room'
  = if decide (room' = room) then room_members srv room ∖ {[sid]}
    else room_members srv room'.
Proof.
  unfold room_members at 1, socket_leave. simpl.
  destruct (decide (room_members srv room ∖ {[sid]} = ∅)) as [He|He];
    destruct (decide (room' = room)) as [->|Hne].
  - by rewrite lookup_delete_eq, He.
  - by rewrite lookup_delete_ne.
  - by rewrite lookup_insert_eq.
  - by rewrite lookup_insert_ne.
Qed.

Lemma room_members_leave_all sid srv room :
  room_members (socket_leave_all sid srv) room = room_members srv room ∖ {[sid]}.
Proof.
  unfold room_members, socket_leave_all. simpl.
  rewrite map_lookup_filter, lookup_fmap.
  destruct (rooms srv !! room) as [members|]; simpl; [|set_solver].
  destruct (decide (members ∖ {[sid]} = ∅)) as [He|He].
  - rewrite option_guard_False; [by rewrite He | simpl; by intros H].
  - by rewrite option_guard_True.
Qed.

(** X1. ['conversation:join'] changes one membership at most: afterwards a
    socket is in a room exactly when it was there before or it is the joining
    socket and the room is the one named by a truthy id. The database and the
    presence map are not touched. *)
Theorem join_changes_one_membership sock v w room sid :
  (sid ∈ room_members (io (on_conversation_join sock v w)) room
   ↔ sid ∈ room_members (io w) room
     ∨ (Js.truthy v = true ∧ room = Js.toString v ∧ sid = sock_id sock))
  ∧ db (on_conversation_join sock v w) = db w
  ∧ onlineUsers (on_conversation_join sock v w) = onlineUsers w.
Proof.
  unfold on_conversation_join. destruct (Js.truthy v); simpl.
  - split; [|done]. rewrite room_members_join_at.
    destruct (decide (room = Js.toString v)) as [->|Hne]; set_solver.
  - split; [|done]. naive_solver.
Qed.

(** X2. ['conversation:leave'] removes one membership at most: afterwards a
    socket is in a room exactly when it was there before and it is not the
    leaving socket in the room named by a truthy id. The database and the
    presence map are not touched. *)
Theorem leave_changes_one_membership sock v w room sid :
  (sid ∈ room_members (io (on_conversation_leave sock v w)) room
   ↔ sid ∈ room_members (io w) room
     ∧ ¬ (Js.truthy v = true ∧ room = Js.toString v ∧ sid = sock_id sock))
  ∧ db (on_conversation_leave sock v w) = db w
  ∧ onlineUsers (on_conversation_leave sock v w) = onlineUsers w.
Proof.
  unfold on_conversation_leave. destruct (Js.truthy v); simpl.
  - split; [|done]. rewrite room_members_leave_at.
    destruct (decide (room = Js.toString v)) as [->|Hne]; set_solver.
  - split; [|done]. naive_solver.
Qed.

(** X3. Joining a room and then leaving it puts every room back to the
    members it had, provided the socket was not in the room to begin with. *)
Theorem join_then_leave_restores sock v w room :
  sock_id sock ∉ room_members (io w) (Js.toString v) →
  room_members
    (io (on_conversation_leave sock v (on_conversation_join sock v w))) room
  = room_members (io w) room.
Proof.
  intros Hnot. unfold on_conversation_leave, on_conversation_join.
  destruct (Js.truthy v) eqn:T; [|done]. cbn [io].
  rewrite room_members_leave_at.
  destruct (decide (room = Js.toString v)) as [->|Hne].
  - rewrite room_members_join. set_solver.
  - rewrite room_members_join_at. by rewrite decide_False.
Qed.

Lemma join_then_leave_restores_witness :
  room_members
    (io (on_conversation_leave carol_socket (Js.JStr room0)
           (on_conversation_join carol_socket (Js.JStr room0) world0))) room0
  = room_members (io world0) room0.
Proof.
  apply (join_then_leave_restores carol_socket (Js.JStr room0) world0 room0).
  exact carol_not_in_room0.
Defined.

(** X4. Joining the same room twice is joining it once: the second join
    leaves the whole world as the first made it. *)
Theorem join_twice_is_join_once sock v w :
  on_conversation_join sock v (on_conversation_join sock v w)
  = on_conversation_join sock v w.
Proof.
  unfold on_conversation_join. destruct (Js.truthy v) eqn:T; [|done].
  simpl. f_equal. unfold socket_join. simpl. f_equal.
  rewrite insert_insert_eq. f_equal.
  unfold room_members at 1. simpl. rewrite lookup_insert_eq. simpl.
  set_solver.
Qed.

(** ** Connecting and disconnecting *)

(** X5. A new connection of a user with a non-empty id becomes that user's
    presence entry, replacing any earlier one; no other user's entry changes;
    the socket alone is sent one ['connection:ready'] carrying the user id;
    the database is untouched. *)
Theorem connection_installs_presence sock w :
  userId_of sock ≠ "" →
  onlineUsers (on_connection sock w).1 !! userId_of sock = Some (sock_id sock)
  ∧ (∀ u, u ≠ userId_of sock →
          onlineUsers (on_connection sock w).1 !! u = onlineUsers w !! u)
  ∧ (on_connection sock w).2 = [(sock_id sock, ConnectionReady (userId_of sock))]
  ∧ db (on_connection sock w).1 = db w.
Proof.
  intros H. unfold on_connection. simpl.
  rewrite (eqb_empty_false _ H). simpl. repeat split.
  - apply lookup_insert_eq.
  - intros u Hu. by rewrite lookup_insert_ne.
Qed.

Lemma connection_installs_presence_witness :
  onlineUsers world0 !! userId_of {| sock_id := "sock-bob-2"; sock_user := bob |}
  = Some "sock-bob"
  ∧ onlineUsers
      (on_connection {| sock_id := "sock-bob-2"; sock_user := bob |} world0).1
    !! u_id bob = Some "sock-bob-2".
Proof.
  split; [reflexivity|].
  apply (connection_installs_presence
           {| sock_id := "sock-bob-2"; sock_user := bob |} world0).
  discriminate.
Defined.

(** X6. The presence map knows one socket per user and ['disconnect']
    deletes by user id: when a user opens a second connection and the first
    one then closes, the user has no presence entry although the second
    connection is still in its rooms. *)
Theorem stale_disconnect_drops_presence first second w :
  userId_of first = userId_of second → userId_of first ≠ "" →
  sock_id first ≠ sock_id second →
  let w2 := (on_connection second (on_connection first w).1).1 in
  onlineUsers w2 !! userId_of second = Some (sock_id second)
  ∧ onlineUsers (on_disconnect first w2) !! userId_of second = None
  ∧ sock_id second ∈ room_members (io (on_disconnect first w2)) (sock_id second).
Proof.
  intros Hsame Hne Hids w2. subst w2. split; [|split].
  - unfold on_connection at 1. cbn [onlineUsers fst].
    assert (Js.truthy (Js.JStr (userId_of second)) = true) as ->
      by (simpl; rewrite <- Hsame; by rewrite (eqb_empty_false _ Hne)).
    apply lookup_insert_eq.
  - unfold on_disconnect. cbn [onlineUsers].
    assert (Js.truthy (Js.JStr (userId_of first)) = true) as ->
      by (simpl; by rewrite (eqb_empty_false _ Hne)).
    rewrite Hsame. apply lookup_delete_eq.
  - unfold on_disconnect. cbn [io]. rewrite room_members_leave_all.
    unfold on_connection. cbn [io fst]. rewrite room_members_join.
    set_solver.
Qed.

Lemma stale_disconnect_drops_presence_witness :
  onlineUsers
    (on_disconnect bob_socket
       (on_connection {| sock_id := "sock-bob-2"; sock_user := bob |}
          (on_connection bob_socket world0).1).1)
  !! u_id bob = None.
Proof.
  apply (stale_disconnect_drops_presence bob_socket
           {| sock_id := "sock-bob-2"; sock_user := bob |} world0);
    [reflexivity | discriminate | discriminate].
Defined.

(** ** Every way a send can end *)

Lemma blank_content_false_inv v :
  blank_content v = inr false → ∃ s, v = Js.JStr s ∧ Js.trim s ≠ "".
Proof.
  unfold blank_content.
  destruct v as [| |[|]|n|s|]; simpl; try done.
  - by destruct (n =? 0).
  - destruct (String.eqb s "") eqn:E; simpl; [done|].
    intros [= H]. exists s. split; [done|]. by apply String.eqb_neq.
Qed.

Lemma on_message_send_cases env sock v content w :
  on_message_send env sock (Some (v, content)) w
  = {| out_world := w; out_deliveries := []; out_rejected := false |}
  ∨ (∃ text,
      on_message_send env sock (Some (v, content)) w
      = {| out_world := w;
           out_deliveries := [(sock_id sock, MessageError text)];
           out_rejected := false |})
  ∨ (∃ cid s c,
      v = Js.JStr cid ∧ content = Js.JStr s ∧ isValid cid = true
      ∧ Js.trim s ≠ "" ∧ Conversation_lookup cid (db w) = Some c
      ∧ isParticipant c (userId_of sock) = true
      ∧ on_message_send env sock (Some (v, content)) w
        = let r := persist_and_broadcast (Some (io w)) env c cid (sock_user sock)
                     (Js.trim s) (db w) in
          {| out_world := with_db w r.1.2; out_deliveries := r.2;
             out_rejected := false |}).
Proof.
  unfold on_message_send, message_send_try.
  destruct (Js.truthy v); [|by left]. simpl negb. cbv iota.
  destruct (blank_content content) as [e|[|]] eqn:Hb;
    [right; left; by eexists | by left |].
  rewrite bind_ret.
  destruct (Conversation_findById v (db w)) as [e|[c|]] eqn:Hf;
    [right; left; by eexists | | right; left; by eexists].
  rewrite bind_ret.
  destruct (isParticipant c (userId_of sock)) eqn:Hp;
    [|right; left; by eexists].
  simpl negb. cbv iota.
  apply blank_content_false_inv in Hb as (s & -> & Hs).
  apply Conversation_findById_Some in Hf as (cid & -> & Hv & Hf).
  right. right. exists cid, s, c. do 6 (split; [done|]).
  rewrite js_trim_text, bind_ret. simpl Js.toString.
  by destruct (persist_and_broadcast _ _ _ _ _ _ _) as [[pm d'] out].
Qed.

Lemma post_message_cases app_io env user cid content d :
  (∃ code err,
     (code = 400 ∨ code = 403 ∨ code = 404)
     ∧ post_message app_io env user cid content d
       = (respond code (Failure err), d, []))
  ∨ (∃ e, post_message app_io env user cid content d
          = (respond 500 (Failure500 "Failed to send message" e), d, []))
  ∨ (∃ s c,
      content = Js.JStr s ∧ isValid cid = true ∧ Js.trim s ≠ ""
      ∧ Conversation_lookup cid d = Some c
      ∧ isParticipant c (u_id user) = true
      ∧ post_message app_io env user cid content d
        = let r := persist_and_broadcast app_io env c cid user (Js.trim s) d in
          (respond 201 (MessageBody r.1.1), r.1.2, r.2)).
Proof.
  unfold post_message, post_message_try.
  destruct (blank_content content) as [e|[|]] eqn:Hb;
    [right; left; by eexists | left; eexists _, _; split; [|done]; tauto |].
  rewrite bind_ret.
  destruct (isValid cid) eqn:Hv;
    [|left; eexists _, _; split; [|done]; tauto].
  simpl negb. cbv iota.
  rewrite (Conversation_findById_valid _ _ Hv), bind_ret.
  destruct (Conversation_lookup cid d) as [c|] eqn:Hf;
    [|left; eexists _, _; split; [|done]; tauto].
  destruct (isParticipant c (u_id user)) eqn:Hp;
    [|left; eexists _, _; split; [|done]; tauto].
  simpl negb. cbv iota.
  apply blank_content_false_inv in Hb as (s & -> & Hs).
  right. right. exists s, c. do 5 (split; [done|]).
  rewrite js_trim_text, bind_ret.
  by destruct (persist_and_broadcast _ _ _ _ _ _ _) as [[pm d'] out].
Qed.



Lemma persist_store gateway env c cid author text d :
  let d' := (persist_and_broadcast gateway env c cid author text d).1.2 in
  users d' = users d ∧ posts d' = posts d
  ∧ length (conversations d') = length (conversations d)
  ∧ messages d'
    = (messages d
       ++ [{| msg_id := fresh_id env; conversation := canonical cid;
              sender := u_id author; content := text; readBy := [u_id author];
              createdAt := now_create env |}])%list.
Proof.
  rewrite persist_and_broadcast_unfold. cbv zeta. cbn [fst snd].
  repeat split. unfold Conversation_save. simpl. by rewrite length_map.
Qed.



(** X8. A send with non-blank content to a well-formed id that is the id of
    no stored conversation, in whatever spelling (the lookup casts the
    text), is refused as not found on both paths: the socket sender
    alone gets ['message:error'] "Conversation not found", the REST caller
    gets 404, and nothing is stored or broadcast. *)
Theorem send_to_unknown_conversation env sock app_io user cid s w :
  isValid cid = true → Conversation_lookup cid (db w) = None →
  Js.trim s ≠ "" →
  on_message_send env sock (Some (Js.JStr cid, Js.JStr s)) w
  = {| out_world := w;
       out_deliveries := [(sock_id sock, MessageError "Conversation not found")];
       out_rejected := false |}
  ∧ post_message app_io env user cid (Js.JStr s) (db w)
    = (respond 404 (Failure "Conversation not found"), db w, []).
Proof.
  intros Hv Hf Hs. split.
  - unfold on_message_send, message_send_try.
    assert (Js.truthy (Js.JStr cid) = true) as ->.
    { destruct cid; [discriminate Hv | reflexivity]. }
    simpl negb. cbv iota.
    rewrite (blank_content_text _ Hs), bind_ret.
    by rewrite (Conversation_findById_valid _ _ Hv), bind_ret, Hf.
  - unfold post_message, post_message_try.
    rewrite (blank_content_text _ Hs), bind_ret, Hv. simpl negb. cbv iota.
    by rewrite (Conversation_findById_valid _ _ Hv), bind_ret, Hf.
Qed.

Lemma send_to_unknown_conversation_witness :
  on_message_send env0 alice_socket
    (Some (Js.JStr "0000000000000000000000ff", Js.JStr "hi")) world0
  = {| out_world := world0;
       out_deliveries := [("sock-alice", MessageError "Conversation not found")];
       out_rejected := false |}
  ∧ post_message None env0 alice "0000000000000000000000ff" (Js.JStr "hi")
      (db world0)
    = (respond 404 (Failure "Conversation not found"), db world0, []).
Proof.
  apply (send_to_unknown_conversation env0 alice_socket None alice
           "0000000000000000000000ff" "hi" world0);
    [reflexivity | reflexivity | discriminate].
Defined.

(** X9. What the socket handler's [catch] covers: a truthy [content] that is
    not a string (so [content.trim] is not a function), whatever the truthy
    [conversationId]; or non-blank content with a [conversationId] that is a
    non-empty string but not a well-formed id (so [findById] rejects). In
    both the sender alone gets ['message:error'] "Failed to send message",
    the handler returns normally and nothing changes. *)
Theorem send_exception_is_caught env sock v content w :
  Js.truthy v = true →
  (Js.truthy content = true ∧ ∀ s, content ≠ Js.JStr s)
  ∨ ((∃ s, content = Js.JStr s ∧ Js.trim s ≠ "")
     ∧ ∃ cid, v = Js.JStr cid ∧ isValid cid = false) →
  on_message_send env sock (Some (v, content)) w
  = {| out_world := w;
       out_deliveries := [(sock_id sock, MessageError "Failed to send message")];
       out_rejected := false |}.
Proof.
  intros Hv H. unfold on_message_send, message_send_try. rewrite Hv.
  simpl negb. cbv iota.
  destruct H as [[Ht Hns] | [(s & -> & Hs) (cid & -> & Hbad)]].
  - unfold blank_content. rewrite Ht. simpl negb. cbv iota.
    destruct content as [| |b|n|s|]; try done. by destruct (Hns s).
  - rewrite (blank_content_text _ Hs), bind_ret.
    simpl. by rewrite Hbad.
Qed.

Lemma send_exception_is_caught_witness :
  on_message_send env0 alice_socket (Some (Js.JStr room0, Js.JNum 7)) world0
  = {| out_world := world0;
       out_deliveries := [("sock-alice", MessageError "Failed to send message")];
       out_rejected := false |}
  ∧ on_message_send env0 alice_socket (Some (Js.JStr "room-7", Js.JStr "hi")) world0
    = {| out_world := world0;
         out_deliveries := [("sock-alice", MessageError "Failed to send message")];
         out_rejected := false |}.
Proof.
  split.
  - apply (send_exception_is_caught env0 alice_socket (Js.JStr room0) (Js.JNum 7)
             world0); [reflexivity|].
    left. split; [reflexivity | discriminate].
  - apply (send_exception_is_caught env0 alice_socket (Js.JStr "room-7")
             (Js.JStr "hi") world0); [reflexivity|].
    right. split; [exists "hi"; split; [reflexivity | discriminate]|].
    exists "room-7". split; reflexivity.
Defined.

(** ** What a send can and cannot change *)

(** X10. A socket send that carries a payload object, whatever its two
    fields, leaves the rooms, the presence map, the users, the posts and the
    number of conversations as they were, and either leaves the messages
    alone or appends exactly one, authored and read by the sender only, with
    non-empty content. *)
Theorem socket_send_only_appends env sock v raw w :
  let w' := out_world (on_message_send env sock (Some (v, raw)) w) in
  io w' = io w ∧ onlineUsers w' = onlineUsers w
  ∧ users (db w') = users (db w) ∧ posts (db w') = posts (db w)
  ∧ length (conversations (db w')) = length (conversations (db w))
  ∧ (messages (db w') = messages (db w)
     ∨ ∃ m, messages (db w') = (messages (db w) ++ [m])%list
            ∧ sender m = userId_of sock ∧ readBy m = [userId_of sock]
            ∧ content m ≠ "").
Proof.
  destruct (on_message_send_cases env sock v raw w)
    as [-> | [[text ->] | (cid & s & c & _ & _ & _ & Hs & _ & _ & ->)]];
    cbv zeta; cbn [out_world]; try (repeat split; by left).
  destruct (persist_store (Some (io w)) env c cid (sock_user sock) (Js.trim s)
              (db w)) as (Hu & Hp & Hc & Hm).
  cbn [with_db db io onlineUsers]. do 5 (split; [done|]).
  right. eexists. split; [exact Hm|]. by repeat split.
Qed.

(** X11. The two send paths are one: for the same user, conversation id and
    content, the socket handler and the REST handler leave the same
    database; when the REST answer is 201 and the application's gateway is
    the socket server, they broadcast the same events to the same sockets;
    and when it is not 201 the socket handler emits at most an error to the
    sender. *)
Theorem socket_and_rest_agree env sock cid content w :
  let live := on_message_send env sock (Some (Js.JStr cid, content)) w in
  let rest := post_message (app_get_io w) env (sock_user sock) cid content (db w) in
  db (out_world live) = rest.1.2
  ∧ (status rest.1.1 = 201 → out_deliveries live = rest.2)
  ∧ (status rest.1.1 ≠ 201 →
     ∀ sid ev, (sid, ev) ∈ out_deliveries live →
               sid = sock_id sock ∧ is_message_error ev = true).
Proof.
  cbv zeta. unfold app_get_io.
  destruct (post_message_cases (Some (io w)) env (sock_user sock) cid content
              (db w))
    as [(code & err & Hcode & Hr) | [[e Hr] | (s & c & -> & Hv & Hs & Hf & Hp & Hr)]].
  - rewrite Hr. cbn [fst snd status respond].
    destruct (on_message_send_cases env sock (Js.JStr cid) content w)
      as [-> | [[text ->] | (cid' & s & c & [= <-] & -> & Hv & Hs & Hf & Hp & _)]];
      cbn [out_world out_deliveries].
    + split; [done|]. split; [lia|]. by intros _ sid ev H%elem_of_nil.
    + split; [done|]. split; [lia|].
      intros _ sid ev H%list_elem_of_singleton. by injection H as -> ->.
    + exfalso. unfold userId_of in Hp.
      rewrite (rest_send_created (db w) cid c s (sock_user sock) env Hv Hf Hp Hs)
        in Hr.
      cbv zeta in Hr. injection Hr as Hr _ _. lia.
  - rewrite Hr. cbn [fst snd status respond].
    destruct (on_message_send_cases env sock (Js.JStr cid) content w)
      as [-> | [[text ->] | (cid' & s & c & [= <-] & -> & Hv & Hs & Hf & Hp & _)]];
      cbn [out_world out_deliveries].
    + split; [done|]. split; [lia|]. by intros _ sid ev H%elem_of_nil.
    + split; [done|]. split; [lia|].
      intros _ sid ev H%list_elem_of_singleton. by injection H as -> ->.
    + exfalso. unfold userId_of in Hp.
      rewrite (rest_send_created (db w) cid c s (sock_user sock) env Hv Hf Hp Hs)
        in Hr.
      cbv zeta in Hr. by injection Hr as Hr _ _.
  - rewrite Hr.
    rewrite (socket_send_done (db w) cid c s (sock_user sock) env Hv Hf Hp Hs
               sock w eq_refl eq_refl).
    cbv zeta. cbn [out_world out_deliveries with_db db fst snd status respond].
    split; [done|]. split; [done|]. intros H. by destruct H.
Qed.


(** X13. The order of the REST send's checks: falsy or blank content is
    answered 400 "Message content is required" before the id is looked at;
    truthy content that is not a string makes [trim] fail and is answered
    500; non-blank text with a malformed id is answered 400 "Invalid
    conversation ID". *)
Theorem post_message_rejections app_io env user cid content d :
  (Js.truthy content = false ∨ missing_or_blank content = true →
   post_message app_io env user cid content d
   = (respond 400 (Failure "Message content is required"), d, []))
  ∧ (Js.truthy content = true → (∀ s, content ≠ Js.JStr s) →
     post_message app_io env user cid content d
     = (respond 500 (Failure500 "Failed to send message" TypeError), d, []))
  ∧ (∀ s, content = Js.JStr s → Js.trim s ≠ "" → isValid cid = false →
     post_message app_io env user cid content d
     = (respond 400 (Failure "Invalid conversation ID"), d, [])).
Proof.
  unfold post_message, post_message_try. split; [|split].
  - intros [H|H].
    + unfold blank_content. by rewrite H.
    + by rewrite (blank_content_missing _ H).
  - intros Ht Hns. unfold blank_content. rewrite Ht. simpl negb. cbv iota.
    destruct content as [| |b|n|s|]; try done. by destruct (Hns s).
  - intros s -> Hs Hv. by rewrite (blank_content_text _ Hs), bind_ret, Hv.
Qed.

Lemma post_message_rejections_witness :
  post_message None env0 carol "xyz" (Js.JStr "   ") store0
  = (respond 400 (Failure "Message content is required"), store0, [])
  ∧ post_message None env0 alice "xyz" (Js.JStr "Hello") store0
    = (respond 400 (Failure "Invalid conversation ID"), store0, []).
Proof.
  destruct (post_message_rejections None env0 carol "xyz" (Js.JStr "   ") store0)
    as (H1 & _ & _).
  destruct (post_message_rejections None env0 alice "xyz" (Js.JStr "Hello") store0)
    as (_ & _ & H2).
  split.
  - apply H1. right. reflexivity.
  - apply (H2 "Hello"); [reflexivity | discriminate | reflexivity].
Defined.

(** ** After a connection has closed *)

Lemma received_single_other sid sid' ev :
  sid' ≠ sid → received sid [(sid', ev)] = [].
Proof.
  intros H. unfold received. simpl.
  by apply String.eqb_neq in H as ->.
Qed.

Lemma received_persist_outsider gateway env c cid author text d sid :
  ¬ joined gateway cid sid →
  received sid (persist_and_broadcast gateway env c cid author text d).2 = [].
Proof.
  intros H. rewrite persist_and_broadcast_unfold. cbv zeta. cbn [snd].
  destruct gateway as [srv|]; [|done]. simpl in H.
  by rewrite received_app, !received_room_emit_other.
Qed.

(** X14. Closing a connection takes its socket out of every room, so no
    later send reaches it: whoever sends next, over a socket or over REST,
    the closed socket is handed nothing. Other sockets keep the rooms they
    were in. *)
Theorem closed_connection_hears_nothing env sender payload user cid content
    sock w :
  sock_id sender ≠ sock_id sock →
  (∀ room, sock_id sock ∉ room_members (io (on_disconnect sock w)) room)
  ∧ (∀ room sid, sid ≠ sock_id sock →
       (sid ∈ room_members (io (on_disconnect sock w)) room
        ↔ sid ∈ room_members (io w) room))
  ∧ received (sock_id sock)
      (out_deliveries (on_message_send env sender payload (on_disconnect sock w)))
    = []
  ∧ received (sock_id sock)
      (post_message (app_get_io (on_disconnect sock w)) env user cid content
         (db (on_disconnect sock w))).2
    = [].
Proof.
  intros Hne.
  assert (∀ room, sock_id sock ∉ room_members (io (on_disconnect sock w)) room)
    as Hout.
  { intros room. unfold on_disconnect. cbn [io].
    rewrite room_members_leave_all. set_solver. }
  split; [exact Hout|]. split; [|split].
  - intros room sid Hsid. unfold on_disconnect. cbn [io].
    rewrite room_members_leave_all. set_solver.
  - destruct payload as [[v text]|]; [|done].
    destruct (on_message_send_cases env sender v text (on_disconnect sock w))
      as [-> | [[e ->] | (cid' & s & c & _ & _ & _ & _ & _ & _ & ->)]];
      cbv zeta; cbn [out_deliveries]; [done| |].
    + by apply received_single_other.
    + apply received_persist_outsider. simpl. apply Hout.
  - unfold app_get_io.
    destruct (post_message_cases (Some (io (on_disconnect sock w))) env user cid
                content (db (on_disconnect sock w)))
      as [(code & err & _ & ->) | [[e ->] | (s & c & _ & _ & _ & _ & _ & ->)]];
      cbv zeta; cbn [snd]; [done..|].
    apply received_persist_outsider. simpl. apply Hout.
Qed.

Lemma closed_connection_hears_nothing_witness :
  received "sock-bob"
    (out_deliveries
       (on_message_send env0 alice_socket
          (Some (Js.JStr room0, Js.JStr "Hello")) (on_disconnect bob_socket world0)))
  = [].
Proof.
  apply (closed_connection_hears_nothing env0 alice_socket
           (Some (Js.JStr room0, Js.JStr "Hello")) alice room0 (Js.JStr "Hello")
           bob_socket world0).
  discriminate.
Defined.

(** * What every reachable database satisfies *)

(** ** Trimming twice *)

Lemma trimEnd_idem s : Js.trimEnd (Js.trimEnd s) = Js.trimEnd s.
Proof.
  induction s as [|a r IH]; [done|]. simpl.
  destruct (Js.trimEnd r) as [|b r'] eqn:E.
  - destruct (Js.is_ws a) eqn:W; [done|]. simpl. by rewrite W.
  - simpl. simpl in IH. by rewrite IH.
Qed.

Lemma trimStart_trimEnd_head a r :
  Js.is_ws a = false →
  Js.trimStart (Js.trimEnd (String a r)) = Js.trimEnd (String a r).
Proof.
  intros W. cbn [Js.trimEnd].
  destruct (Js.trimEnd r); rewrite ?W; cbn [Js.trimStart]; by rewrite W.
Qed.

Lemma trimStart_cases s :
  Js.trimStart s = ""
  ∨ ∃ a r, Js.trimStart s = String a r ∧ Js.is_ws a = false.
Proof.
  induction s as [|a r IH]; [by left|]. simpl.
  destruct (Js.is_ws a) eqn:W; [exact IH|]. right. by exists a, r.
Qed.

Lemma trim_idem s : Js.trim (Js.trim s) = Js.trim s.
Proof.
  unfold Js.trim. destruct (trimStart_cases s) as [->|(a & r & -> & W)]; [done|].
  by rewrite (trimStart_trimEnd_head a r W), trimEnd_idem.
Qed.

(** ** Messages *)

Lemma isParticipant_elem c uid : isParticipant c uid = true → uid ∈ participants c.
Proof.
  unfold isParticipant. intros H. apply existsb_exists in H as (p & Hp & He).
  apply String.eqb_eq in He. subst. by apply list_elem_of_In.
Qed.

Lemma message_ok_skeleton d d' m :
  skeleton d `prefix_of` skeleton d' → message_ok d m → message_ok d' m.
Proof.
  intros [extra He] (H1 & H2 & H3 & P & HP & Hs). repeat split; try done.
  exists P. split; [|done]. rewrite He. apply elem_of_app. by left.
Qed.

Lemma persist_messages_ok gateway env c cid author text d :
  NoDup (conversation_ids d) →
  Conversation_lookup cid d = Some c →
  isParticipant c (u_id author) = true →
  text ≠ "" → Js.trim text = text →
  Forall (message_ok d) (messages d) →
  Forall (message_ok (persist_and_broadcast gateway env c cid author text d).1.2)
         (messages (persist_and_broadcast gateway env c cid author text d).1.2).
Proof.
  intros Hnd Hf Hp Ht Htrim Hall.
  destruct (persist_skeleton gateway env c cid author text d Hnd Hf) as [Hs _].
  destruct (persist_store gateway env c cid author text d) as (_ & _ & _ & Hm).
  rewrite Hm. apply Forall_app. split.
  - eapply Forall_impl; [exact Hall|]. intros m.
    apply message_ok_skeleton. by rewrite Hs.
  - apply Forall_singleton. unfold message_ok.
    cbn [content readBy sender conversation]. do 3 (split; [done|]).
    exists (participants c). split; [|by apply isParticipant_elem].
    rewrite Hs. unfold skeleton. apply list_elem_of_fmap. exists c.
    split; [by rewrite (Conversation_lookup_id cid d c Hf)|].
    by apply (Conversation_lookup_elem cid).
Qed.

Lemma create_conversation_messages env user participantId postId d :
  messages (create_conversation env user participantId postId d).2 = messages d.
Proof.
  unfold create_conversation.
  destruct (create_conversation_lookup user participantId postId d) as [r|p];
    [done|].
  unfold create_conversation_commit.
  destruct (pend_found p) as [[[c members] populated]|]; [|done].
  by destruct (pend_relatedPost p), populated.
Qed.

Lemma handle_messages_ok r w :
  invariant (db w) → admissible r w →
  Forall (message_ok (db w)) (messages (db w)) →
  Forall (message_ok (db (handle r w))) (messages (db (handle r w))).
Proof.
  intros Hinv Hadm Hall.
  pose proof (proj1 (proj1 Hinv)) as Hwf. pose proof (proj2 (proj1 Hinv)) as Hnd.
  destruct r as [sock|sock v|sock v|sock|env sock payload|env user pid qid
                |env user cid content]; simpl.
  - done.
  - unfold on_conversation_join. by destruct (Js.truthy v).
  - unfold on_conversation_leave. by destruct (Js.truthy v).
  - done.
  - destruct payload as [[v content]|]; [|done].
    destruct (on_message_send_cases env sock v content w)
      as [-> | [[text ->] | (cid & s & c & _ & _ & _ & Hs & Hf & Hp & ->)]];
      cbv zeta; cbn [out_world with_db db]; [done..|].
    apply persist_messages_ok; try done. apply trim_idem.
  - rewrite create_conversation_messages.
    destruct (create_conversation_step env user pid qid (db w) Hinv)
      as [_ [_ Hg]]; [apply Hadm|].
    eapply Forall_impl; [exact Hall|]. intros m. by apply message_ok_skeleton.
  - destruct (post_message_cases (app_get_io w) env user cid content (db w))
      as [(code & err & _ & ->) | [[e ->] | (s & c & _ & _ & Hs & Hf & Hp & ->)]];
      cbv zeta; cbn [fst snd]; [done..|].
    apply persist_messages_ok; try done. apply trim_idem.
Qed.

(** X15. In every state the server can reach by handling requests one after
    the other, every stored message has a non-empty content that is already
    trimmed, has its sender as its only reader, and belongs to a stored
    conversation that has the sender among its participants. *)
Theorem messages_well_formed w m :
  reachable w → m ∈ messages (db w) → message_ok (db w) m.
Proof.
  intros (w0 & Hi & Hev) Hm.
  assert (invariant (db w) ∧ Forall (message_ok (db w)) (messages (db w)))
    as [_ Hall].
  { clear Hm. induction Hev as [|w' r Hev IH Hadm].
    - split; [by apply initial_invariant|].
      destruct Hi as (_ & -> & _). constructor.
    - destruct IH as [Hinv Hall]. split.
      + by apply handle_step.
      + by apply handle_messages_ok. }
  rewrite List.Forall_forall in Hall. apply Hall. by apply list_elem_of_In.
Qed.

Lemma messages_well_formed_witness :
  message_ok
    (db (handle (RestSend env1 alice (fresh_id env0) (Js.JStr " Hello "))
           (handle (RestCreate env0 alice (Some (u_id bob)) None) start_world)))
    (sent_message (fresh_id env0) (env1, alice, " Hello ")).
Proof.
  apply messages_well_formed.
  - exists start_world. split; [done|].
    apply evolves_step; [apply evolves_step; [constructor|]|].
    + exact env0_fresh_at_start.
    + split; [reflexivity|]. split; vm_compute; intros H.
      * apply list_elem_of_In in H. simpl in H. destruct H as [H|[]].
        discriminate H.
      * by apply elem_of_nil in H.
  - vm_compute. left.
Defined.

(** ** Conversations *)

(** X16. In every reachable state each conversation has exactly two
    participant entries and no two conversations share an id. (The two
    entries can name the same user: the creation endpoint compares the
    requested id with the caller's as text, see
    [self_conversation_by_other_spelling].) *)
Theorem conversations_well_formed w :
  reachable w →
  (∀ c, c ∈ conversations (db w) → ∃ a b, participants c = [a; b])
  ∧ NoDup (conversation_ids (db w)).
Proof.
  intros Hr. destruct (reachable_invariant w Hr) as [[Hwf Hnd] _].
  split; [|done]. intros c Hc. rewrite List.Forall_forall in Hwf.
  apply Hwf. by apply list_elem_of_In.
Qed.

Lemma handle_reachable r w : reachable w → admissible r w → reachable (handle r w).
Proof.
  intros (w0 & Hi & Hev) Hadm. exists w0. split; [done|]. by apply evolves_step.
Qed.

Lemma not_elem_of_concrete (x : string) (l : list string) :
  forallb (fun y => negb (String.eqb y x)) l = true → x ∉ l.
Proof.
  intros H Hin. rewrite forallb_forall in H.
  apply list_elem_of_In in Hin. specialize (H x Hin).
  by rewrite String.eqb_refl in H.
Qed.

Lemma two_rooms_reachable : reachable two_rooms_world.
Proof.
  apply handle_reachable; [apply handle_reachable|].
  - exact start_world_reachable.
  - exact env0_fresh_at_start.
  - split; [reflexivity|]. split; by apply not_elem_of_concrete.
Qed.

Lemma conversations_well_formed_witness :
  participants <$> conversations (db two_rooms_world)
  = [[u_id alice; u_id bob]; [u_id alice; u_id carol]]
  ∧ (∀ c, c ∈ conversations (db two_rooms_world) → ∃ a b, participants c = [a; b])
  ∧ NoDup (conversation_ids (db two_rooms_world)).
Proof.
  split; [reflexivity|].
  apply (conversations_well_formed two_rooms_world).
  exact two_rooms_reachable.
Defined.

(** The caller's own id in capitals passes the self test, finds the caller,
    and a conversation of Alice with herself is stored. *)
Example self_conversation_by_other_spelling :
  let r := create_conversation env0 alice (Some "AAAAAAAAAAAAAAAAAAAAAAAA") None
             empty_store in
  status r.1 = 200
  ∧ participants <$> conversations r.2 = [[u_id alice; u_id alice]].
Proof. split; reflexivity. Qed.

Lemma handle_messages_prefix r w :
  messages (db w) `prefix_of` messages (db (handle r w)).
Proof.
  destruct r as [sock|sock v|sock v|sock|env sock payload|env user pid qid
                |env user cid content]; simpl.
  - done.
  - unfold on_conversation_join. by destruct (Js.truthy v).
  - unfold on_conversation_leave. by destruct (Js.truthy v).
  - done.
  - destruct payload as [[v content]|]; [|done].
    destruct (on_message_send_cases env sock v content w)
      as [-> | [[text ->] | (cid & s & c & _ & _ & _ & _ & _ & _ & ->)]];
      cbv zeta; cbn [out_world with_db db]; [done..|].
    destruct (persist_store (Some (io w)) env c cid (sock_user sock) (Js.trim s)
                (db w)) as (_ & _ & _ & ->).
    by apply prefix_app_r.
  - by rewrite create_conversation_messages.
  - destruct (post_message_cases (app_get_io w) env user cid content (db w))
      as [(code & err & _ & ->) | [[e ->] | (s & c & _ & _ & _ & _ & _ & ->)]];
      cbv zeta; cbn [fst snd]; [done..|].
    destruct (persist_store (app_get_io w) env c cid user (Js.trim s) (db w))
      as (_ & _ & _ & ->).
    by apply prefix_app_r.
Qed.

(** X17. Nothing is ever deleted or re-addressed: from a reachable state,
    whatever requests follow, every conversation is still stored under its id
    with the same participants, the users are the same, and the messages
    stored so far are still there, unchanged and in the same order, at the
    front of the message collection. *)
Theorem nothing_is_deleted w w' :
  reachable w → evolves w w' →
  (∀ c, c ∈ conversations (db w) →
        ∃ c', c' ∈ conversations (db w') ∧ conv_id c' = conv_id c
              ∧ participants c' = participants c)
  ∧ users (db w') = users (db w)
  ∧ messages (db w) `prefix_of` messages (db w').
Proof.
  intros Hr Hev.
  destruct (evolves_invariant w w' Hev (reachable_invariant w Hr))
    as [_ [Hu [extra Hs]]].
  split; [|split; [done|]].
  - intros c Hc.
    assert ((conv_id c, participants c) ∈ skeleton (db w')) as H.
    { rewrite Hs. apply elem_of_app. left. unfold skeleton.
      apply list_elem_of_fmap. by exists c. }
    apply skeleton_elem in H as (c' & Hc' & Hid & Hp). by exists c'.
  - clear Hr Hs Hu. induction Hev as [|w'' r Hev IH Hadm]; [done|].
    etrans; [exact IH|]. apply handle_messages_prefix.
Qed.

Lemma chat_world_reachable : reachable chat_world.
Proof.
  apply handle_reachable; [apply handle_reachable|].
  - exact start_world_reachable.
  - exact env0_fresh_at_start.
  - split; [reflexivity|]. split; by apply not_elem_of_concrete.
Qed.

Lemma chat_world_evolves : evolves chat_world later_world.
Proof.
  apply evolves_step; [apply evolves_step; [constructor|]|].
  - split; [reflexivity|]. split; by apply not_elem_of_concrete.
  - split; [reflexivity|]. split; by apply not_elem_of_concrete.
Qed.

(** Alice's conversation with Bob and her first message are still there,
    with the same id and participants, after a second conversation was
    opened and Bob replied. *)
Lemma nothing_is_deleted_witness :
  content <$> messages (db chat_world) = ["Hello"]
  ∧ content <$> messages (db later_world) = ["Hello"; "Hi"]
  ∧ conv_id <$> conversations (db later_world) = [fresh_id env0; fresh_id env2]
  ∧ (∃ c', c' ∈ conversations (db later_world)
           ∧ conv_id c' = fresh_id env0
           ∧ participants c' = [u_id alice; u_id bob])
  ∧ messages (db chat_world) `prefix_of` messages (db later_world).
Proof.
  do 3 (split; [reflexivity|]).
  destruct (nothing_is_deleted chat_world later_world chat_world_reachable
              chat_world_evolves) as (Hconv & _ & Hmsg).
  split; [|exact Hmsg].
  destruct (Hconv (default conv0 (head (conversations (db chat_world)))))
    as (c' & Hin & Hid & Hp); [vm_compute; left|].
  exists c'. split; [exact Hin|]. split.
  - etrans; [exact Hid | reflexivity].
  - etrans; [exact Hp | reflexivity].
Defined.

(** * Further properties of the REST facade *)

(** ** Creating a conversation: refusals *)

Lemma isValid_nonempty s : isValid s = true → Js.truthy (Js.JStr s) = true.
Proof. destruct s; [discriminate | reflexivity]. Qed.




(** ** Creating a conversation: the related listing *)

Lemma findOne_all_after_save a b now c c' d :
  conv_id c' = conv_id c → matches_all a b c' = true →
  Conversation_findOne_all a b d = Some c →
  Conversation_findOne_all a b (Conversation_save now c' d).2
  = Some (Conversation_save now c' d).1.
Proof.
  unfold Conversation_findOne_all, Conversation_save. cbn [fst snd conversations].
  intros Hid Hm.
  set (saved := {| conv_id := conv_id c'; participants := participants c';
                   post := post c'; lastMessage := lastMessage c';
                   conv_createdAt := conv_createdAt c'; updatedAt := now |}).
  assert (matches_all a b saved = true) as Hsaved by exact Hm.
  induction (conversations d) as [|x l IH]; [done|]. simpl.
  destruct (matches_all a b x) eqn:Hx.
  - intros [= ->]. by rewrite Hid, String.eqb_refl, Hsaved.
  - intros Hfind. destruct (String.eqb (conv_id x) (conv_id c')).
    + by rewrite Hsaved.
    + rewrite Hx. by apply IH.
Qed.

(** X19. The related listing of an existing conversation is set once (for a
    [postId] that is absent or a string): a creation call for a pair that
    already has a conversation changes nothing
    when the conversation's listing is set and its document exists, or when
    the request names no well-formed id of a stored post; when the
    conversation has no listing and the request names a stored post, the
    conversation gets that post, keeps its id, participants and summary, and
    is stamped with the time of the save. *)
Theorem listing_is_attached_once env user pid postId d c :
  isValid pid = true → pid ≠ u_id user → is_Some (User_findById pid d) →
  Conversation_findOne_all (u_id user) pid d = Some c →
  (∀ q p, post c = Some q → Post_findById q d = Some p →
          (create_conversation env user (Some pid) postId d).2 = d)
  ∧ ((∀ q, postId = Some q → isValid q = false ∨ Post_findById q d = None) →
     (create_conversation env user (Some pid) postId d).2 = d)
  ∧ (∀ q p, post c = None → postId = Some q → isValid q = true →
            Post_findById q d = Some p →
            ∃ c', Conversation_findOne_all (u_id user) pid
                    (create_conversation env user (Some pid) postId d).2
                  = Some c'
                  ∧ conv_id c' = conv_id c ∧ participants c' = participants c
                  ∧ lastMessage c' = lastMessage c
                  ∧ post c' = Some (p_id p) ∧ updatedAt c' = now_save env).
Proof.
  intros Hv Hne [u Hu] Hfind.
  unfold create_conversation, create_conversation_lookup.
  rewrite Hv, (isValid_nonempty _ Hv). simpl orb. cbv iota.
  apply String.eqb_neq in Hne. rewrite Hne, Hu, Hfind.
  unfold create_conversation_commit.
  cbn [pend_found pend_relatedPost fmap option_fmap option_map
       populate_conversation pc_post pc_participants].
  split; [|split].
  - intros q p Hq Hp. rewrite Hq, Hp.
    by destruct (match postId with Some _ => _ | None => _ end).
  - intros Hbad. destruct postId as [q|].
    + destruct (Hbad q eq_refl) as [Hq|Hq].
      * rewrite Hq, andb_false_r.
        by destruct (match post c with Some _ => _ | None => _ end).
      * rewrite Hq. destruct (Js.truthy (Js.JStr q) && isValid q);
          by destruct (match post c with Some _ => _ | None => _ end).
    + by destruct (match post c with Some _ => _ | None => _ end).
  - intros q p Hnone -> Hq Hp.
    rewrite Hq, (isValid_nonempty _ Hq), Hp, Hnone.
    cbn [andb fmap option_fmap option_map].
    pose proof (find_some _ _ Hfind) as [_ Hm].
    pose proof (findOne_all_after_save (u_id user) pid (now_save env) c
                  (set_post c (p_id p)) d eq_refl Hm Hfind) as Hsave.
    destruct (Conversation_save (now_save env) (set_post c (p_id p)) d)
      as [c'' d''] eqn:E.
    cbn [fst snd] in *. exists c''. split; [exact Hsave|].
    unfold Conversation_save in E. by injection E as <- _.
Qed.

(** Bob asks again for the conversation that already shows the listing:
    nothing changes. Asked with the listing for a conversation that shows
    none, naming Alice in capitals, the endpoint attaches it. *)
Lemma listing_is_attached_once_witness :
  (create_conversation env1 bob (Some (u_id alice)) None (db market_world)).2
  = db market_world
  ∧ ∃ c', Conversation_findOne_all (u_id bob) "AAAAAAAAAAAAAAAAAAAAAAAA"
            (create_conversation env1 bob (Some "AAAAAAAAAAAAAAAAAAAAAAAA")
               (Some (p_id listing1))
               (create_conversation env0 alice (Some (u_id bob)) None
                  market_store).2).2
          = Some c'
          ∧ participants c' = [u_id alice; u_id bob]
          ∧ post c' = Some (p_id listing1) ∧ updatedAt c' = now_save env1.
Proof.
  split.
  - destruct (listing_is_attached_once env1 bob (u_id alice) None (db market_world)
                (Conversation_create env0 (u_id alice) (u_id bob)
                   (Some (p_id listing1)) market_store).1)
      as (_ & H & _); [reflexivity|discriminate|by eexists|reflexivity|].
    apply H. discriminate.
  - destruct (listing_is_attached_once env1 bob "AAAAAAAAAAAAAAAAAAAAAAAA"
                (Some (p_id listing1))
                (create_conversation env0 alice (Some (u_id bob)) None
                   market_store).2
                (Conversation_create env0 (u_id alice) (u_id bob) None
                   market_store).1)
      as (_ & _ & H); [reflexivity|discriminate|by eexists|reflexivity|].
    destruct (H (p_id listing1) listing1 eq_refl eq_refl eq_refl eq_refl)
      as (c' & H1 & _ & H2 & _ & H3 & H4).
    exists c'. split; [exact H1|]. split; [|split; [exact H3 | exact H4]].
    etrans; [exact H2 | reflexivity].
Defined.

Lemma create_first_contact env user pid postId d :
  isValid pid = true → pid ≠ u_id user → is_Some (User_findById pid d) →
  Conversation_findOne_all (u_id user) pid d = None →
  ∃ c, conversations (create_conversation env user (Some pid) postId d).2
       = (conversations d ++ [c])%list
       ∧ messages (create_conversation env user (Some pid) postId d).2
         = messages d
       ∧ returned_conversation (create_conversation env user (Some pid) postId d).1
         = Some (conv_id c)
       ∧ conv_id c = fresh_id env ∧ participants c = [u_id user; canonical pid]
       ∧ lastMessage c = {| lm_content := ""; lm_sender := None;
                            lm_createdAt := None |}
       ∧ conv_createdAt c = now_create env ∧ updatedAt c = now_create env
       ∧ post c = match postId with
                  | Some q => if isValid q then p_id <$> Post_findById q d
                              else None
                  | None => None
                  end.
Proof.
  intros Hv Hne [u Hu] Hfind.
  unfold create_conversation, create_conversation_lookup.
  rewrite Hv, (isValid_nonempty _ Hv). simpl orb. cbv iota.
  apply String.eqb_neq in Hne. rewrite Hne, Hu, Hfind.
  unfold create_conversation_commit. cbn [pend_found fmap option_fmap option_map].
  eexists. split; [reflexivity|]. repeat split.
  cbn [post pend_relatedPost]. destruct postId as [q|]; [|done].
  destruct (isValid q) eqn:Hq; [|by rewrite andb_false_r].
  by rewrite (isValid_nonempty _ Hq).
Qed.



(** ** The conversation list *)

Lemma insert_recent_Permutation x l : Permutation (insert_recent x l) (x :: l).
Proof.
  induction l as [|y r IH]; simpl; [done|].
  destruct (updatedAt y <=? updatedAt x); [done|].
  rewrite IH. apply perm_swap.
Qed.

Lemma insert_recent_HdRel a x l :
  recent_first a x → HdRel recent_first a l →
  HdRel recent_first a (insert_recent x l).
Proof.
  intros Hax Hl. destruct l as [|y r]; simpl; [by constructor|].
  destruct (updatedAt y <=? updatedAt x); constructor; [done|].
  by inversion Hl.
Qed.

Lemma insert_recent_Sorted x l :
  Sorted recent_first l → Sorted recent_first (insert_recent x l).
Proof.
  induction 1 as [|y r Hr IH Hhd]; simpl.
  - by repeat constructor.
  - destruct (updatedAt y <=? updatedAt x) eqn:E.
    + constructor; [by constructor|]. constructor. unfold recent_first. lia.
    + constructor; [exact IH|].
      apply insert_recent_HdRel; [|exact Hhd]. unfold recent_first. lia.
Qed.

Lemma sort_recent_contract : inbox_contract sort_recent.
Proof.
  intros l. split.
  - induction l as [|x l IH]; simpl; [done|].
    rewrite insert_recent_Permutation. by constructor.
  - induction l as [|x l IH]; simpl; [constructor|].
    by apply insert_recent_Sorted.
Qed.

Lemma pc_doc_populate d (l : list Conversation) :
  pc_doc <$> (populate_conversation d <$> l) = l.
Proof. induction l as [|c l IH]; [done|]. by rewrite !fmap_cons, IH. Qed.

Lemma holds_participant uid c :
  existsb (String.eqb uid) (participants c) = isParticipant c uid.
Proof.
  unfold isParticipant. induction (participants c) as [|p l IH]; [done|].
  simpl. by rewrite IH, String.eqb_sym.
Qed.

Lemma find_participant_elem uid d c :
  c ∈ Conversation_find_participant uid d
  ↔ c ∈ conversations d ∧ uid ∈ participants c.
Proof.
  unfold Conversation_find_participant.
  rewrite list_elem_of_In, filter_In, <- list_elem_of_In, holds_participant.
  split; intros [H1 H2]; split; try done.
  - by apply isParticipant_elem.
  - unfold isParticipant. apply existsb_exists. exists uid.
    split; [by apply list_elem_of_In | apply String.eqb_refl].
Qed.

Section InboxFacts.

Variable sort_updatedAt : list Conversation → list Conversation.
Hypothesis honoured : inbox_contract sort_updatedAt.

(** X21. [GET /conversations] answers 200 with exactly the stored
    conversations that have the caller among their participants, each once
    per stored copy, most recently updated first; a conversation of other
    users never appears. *)
Theorem inbox_lists_own_conversations user d :
  (get_conversations sort_updatedAt user d).1 = 200
  ∧ Permutation (pc_doc <$> (get_conversations sort_updatedAt user d).2)
                (Conversation_find_participant (u_id user) d)
  ∧ Sorted recent_first (pc_doc <$> (get_conversations sort_updatedAt user d).2)
  ∧ (∀ c, c ∈ pc_doc <$> (get_conversations sort_updatedAt user d).2
          ↔ c ∈ conversations d ∧ u_id user ∈ participants c).
Proof.
  unfold get_conversations. cbn [fst snd]. rewrite pc_doc_populate.
  destruct (honoured (Conversation_find_participant (u_id user) d)) as [Hp Hs].
  do 3 (split; [done|]).
  intros c. rewrite Hp. apply find_participant_elem.
Qed.

(** X22. A send brings its conversation to the top: after a successful REST
    send whose save is stamped later than every other conversation, the
    conversation list of each participant starts with that conversation,
    showing the trimmed content as its summary. *)
Theorem send_moves_conversation_to_top app_io env author viewer cid s c d :
  isValid cid = true → Conversation_lookup cid d = Some c →
  isParticipant c (u_id author) = true → Js.trim s ≠ "" →
  (∀ x, x ∈ conversations d → conv_id x ≠ conv_id c →
        updatedAt x < now_save env) →
  isParticipant c (u_id viewer) = true →
  ∃ top rest,
    (get_conversations sort_updatedAt viewer
       (post_message app_io env author cid (Js.JStr s) d).1.2).2 = top :: rest
    ∧ conv_id (pc_doc top) = conv_id c
    ∧ lm_content (lastMessage (pc_doc top)) = Js.trim s
    ∧ updatedAt (pc_doc top) = now_save env.
Proof.
  intros Hv Hf Hp Hs Hlate Hviewer.
  rewrite (rest_send_created d cid c s author env Hv Hf Hp Hs). cbv zeta.
  cbn [fst snd].
  set (d' := (persist_and_broadcast app_io env c cid author (Js.trim s) d).1.2).
  pose proof (Conversation_lookup_id _ _ _ Hf) as Hid.
  set (c2 := {| conv_id := conv_id c; participants := participants c;
                post := post c;
                lastMessage := {| lm_content := Js.trim s;
                                  lm_sender := Some (u_id author);
                                  lm_createdAt := Some (now_create env) |};
                conv_createdAt := conv_createdAt c;
                updatedAt := now_save env |}).
  assert (conversations d'
          = List.map (fun x => if String.eqb (conv_id x) (conv_id c) then c2 else x)
                     (conversations d)) as Hconv by reflexivity.
  assert (∀ x, x ∈ conversations d' → x = c2 ∨ updatedAt x < now_save env)
    as Hall.
  { intros x Hx. rewrite Hconv in Hx. apply list_elem_of_In, in_map_iff in Hx
      as (y & Hy & Hin). apply list_elem_of_In in Hin.
    destruct (String.eqb (conv_id y) (conv_id c)) eqn:E; [by left|].
    right. subst x. apply Hlate; [done|].
    by apply String.eqb_neq in E. }
  assert (c2 ∈ conversations d') as Hc2.
  { rewrite Hconv. apply list_elem_of_In, in_map_iff. exists c.
    rewrite String.eqb_refl. split; [done|].
    apply list_elem_of_In. by apply (Conversation_lookup_elem cid). }
  unfold get_conversations. cbn [snd].
  destruct (honoured (Conversation_find_participant (u_id viewer) d'))
    as [Hperm Hsorted].
  assert (c2 ∈ sort_updatedAt (Conversation_find_participant (u_id viewer) d'))
    as Hin.
  { rewrite Hperm. apply find_participant_elem. split; [done|].
    by apply isParticipant_elem. }
  destruct (sort_updatedAt (Conversation_find_participant (u_id viewer) d'))
    as [|top rest] eqn:E; [by apply elem_of_nil in Hin|].
  assert (top = c2) as ->.
  { assert (top ∈ conversations d') as Htop.
    { assert (top ∈ top :: rest) as H by left.
      rewrite Hperm in H. by apply find_participant_elem in H as [H _]. }
    destruct (Hall top Htop) as [->|Hlt]; [done|].
    apply elem_of_cons in Hin as [->|Hin]; [done|].
    apply Sorted_StronglySorted in Hsorted;
      [|intros x y z; unfold recent_first; lia].
    apply StronglySorted_inv in Hsorted as [_ Hhd].
    rewrite List.Forall_forall in Hhd.
    assert (recent_first top c2) as Hle by (apply Hhd; by apply list_elem_of_In).
    unfold recent_first in Hle. simpl in Hle. lia. }
  rewrite fmap_cons. eexists _, _. split; [reflexivity|]. by repeat split.
Qed.

End InboxFacts.

Lemma inbox_lists_own_conversations_witness :
  pc_doc <$> (get_conversations sort_recent carol store0).2 = []
  ∧ pc_doc <$> (get_conversations sort_recent bob store0).2 = [conv0].
Proof.
  destruct (inbox_lists_own_conversations sort_recent sort_recent_contract
              carol store0) as (_ & H & _).
  split; [|reflexivity].
  by apply Permutation_nil_r in H.
Defined.

(** Alice's list shows her conversation with Carol first; she writes to
    Bob, and the conversation with Bob is first. *)
Lemma send_moves_conversation_to_top_witness :
  (fun v => conv_id (pc_doc v)) <$> (get_conversations sort_recent alice busy_store).2
  = [room1; room0]
  ∧ (fun v => conv_id (pc_doc v))
      <$> (get_conversations sort_recent alice
             (post_message None env0 alice room0 (Js.JStr " Hello ")
                busy_store).1.2).2
    = [room0; room1]
  ∧ ∃ top rest,
      (get_conversations sort_recent alice
         (post_message None env0 alice room0 (Js.JStr " Hello ") busy_store).1.2).2
      = top :: rest
      ∧ conv_id (pc_doc top) = conv_id conv0
      ∧ lm_content (lastMessage (pc_doc top)) = Js.trim " Hello "
      ∧ updatedAt (pc_doc top) = now_save env0.
Proof.
  do 2 (split; [reflexivity|]).
  apply (send_moves_conversation_to_top sort_recent sort_recent_contract None
           env0 alice alice room0 " Hello " conv0 busy_store);
    [reflexivity | reflexivity | reflexivity | exact hello_not_blank | |
     reflexivity].
  intros x Hx Hne.
  apply elem_of_cons in Hx as [->|Hx]; [by destruct Hne|].
  apply list_elem_of_singleton in Hx. subst x. reflexivity.
Defined.

(** * Credentials *)

Example bearer_token_plain : bearer_token (Some "Bearer abc.def") = Some "abc.def".
Proof. reflexivity. Qed.

Example bearer_token_scheme_only : bearer_token (Some "Bearer") = None.
Proof. reflexivity. Qed.

Example bearer_token_two_spaces : bearer_token (Some "Bearer  abc") = Some "".
Proof. reflexivity. Qed.

Lemma split_on_cons sep s : ∃ h t, split_on sep s = h :: t.
Proof.
  induction s as [|a r (h & t & IH)]; simpl; [by eexists _, _|].
  destruct (Ascii.eqb a sep); [by eexists _, _|]. rewrite IH. by eexists _, _.
Qed.

Lemma split_on_absent sep s : contains sep s = false → split_on sep s = [s].
Proof.
  induction s as [|a r IH]; simpl; [done|].
  intros H. apply orb_false_elim in H as [-> H]. by rewrite (IH H).
Qed.

Lemma bearer_token_of_header token :
  contains " " token = false →
  bearer_token (Some ("Bearer " ++ token)) = Some token.
Proof.
  intros H. unfold bearer_token.
  change (split_on " " ("Bearer " ++ token))
    with ("Bearer" :: split_on " " token).
  by rewrite (split_on_absent _ _ H).
Qed.

Lemma User_findById_stored id d user :
  User_findById id d = Some user → u_id user = canonical id ∧ user ∈ users d.
Proof.
  unfold User_findById. intros H. apply find_some in H as [Hin He].
  apply String.eqb_eq in He. split; [done|]. by apply list_elem_of_In.
Qed.

Lemma User_findById_value_Some v d user :
  User_findById_value v d = inr (Some user) →
  ∃ id, v = Js.JStr id ∧ isValid id = true ∧ User_findById id d = Some user.
Proof.
  destruct v as [| |b|n|s|]; simpl; try done.
  destruct (isValid s) eqn:E; [|done]. intros [= H]. eauto.
Qed.

Lemma no_token_false token :
  no_token token = false → ∃ t, token = Some t ∧ t ≠ "".
Proof.
  destruct token as [t|]; simpl; [|done]. intros H. exists t. split; [done|].
  intros ->. done.
Qed.

Lemma no_token_some t : t ≠ "" → no_token (Some t) = false.
Proof. intros H. simpl. by rewrite (eqb_empty_false _ H). Qed.

Section CredentialFacts.

Variable jwt_verify : string → string + Js.value.

(** X23. The chat router's middleware lets a request through only with a
    user read from the database: the header has a non-empty second field,
    [jwt.verify] accepts it, and the user handed to the handler is a stored
    user; when the payload's [userId] is a string, that string is a
    well-formed id and the user is the stored one with the object id it is
    cast to, whatever its spelling. *)
Theorem authenticateToken_passes_stored_user authorization d user :
  authenticateToken jwt_verify authorization d = Passed user →
  ∃ token userId,
    bearer_token authorization = Some token ∧ token ≠ ""
    ∧ jwt_verify token = inr userId ∧ user ∈ users d
    ∧ (∀ id, userId = Js.JStr id →
             isValid id = true ∧ User_findById id d = Some user
             ∧ u_id user = canonical id).
Proof.
  unfold authenticateToken.
  destruct (no_token (bearer_token authorization)) eqn:Hn; [done|].
  apply no_token_false in Hn as (token & -> & Hne). simpl default.
  destruct (jwt_verify token) as [name|userId] eqn:Hv; [done|].
  destruct (User_findById_value userId d) as [e|[u|]] eqn:Hu; [done| |done].
  intros [= ->].
  apply User_findById_value_Some in Hu as (id & -> & Hid & Hu).
  destruct (User_findById_stored _ _ _ Hu) as [H1 H2].
  exists token, (Js.JStr id). do 4 (split; [done|]).
  by intros id' [= <-].
Qed.

(** X24. How the chat router's middleware refuses: 401 when the header is
    missing or has no non-empty second field; 401 when [jwt.verify] throws an
    error named [JsonWebTokenError] and 500 when it throws one of any other
    name (an expired token among them); 404 when the payload's [userId] is
    missing or is a string that is the well-formed id of no stored user; 500
    when it is a string that is not a well-formed id (the lookup's cast
    error). *)
Theorem authenticateToken_refusals authorization d :
  (no_token (bearer_token authorization) = true →
   authenticateToken jwt_verify authorization d
   = Refused (respond 401 (Failure "No token provided")))
  ∧ (∀ token name,
       bearer_token authorization = Some token → token ≠ "" →
       jwt_verify token = inl name →
       authenticateToken jwt_verify authorization d
       = Refused (if String.eqb name "JsonWebTokenError"
                  then respond 401 (Failure "Invalid token")
                  else respond 500 (Failure "Token verification failed")))
  ∧ (∀ token userId,
       bearer_token authorization = Some token → token ≠ "" →
       jwt_verify token = inr userId →
       userId = Js.JUndefined ∨ userId = Js.JNull
       ∨ (∃ id, userId = Js.JStr id ∧ isValid id = true
                ∧ User_findById id d = None) →
       authenticateToken jwt_verify authorization d
       = Refused (respond 404 (Failure "User not found. Please log in again.")))
  ∧ (∀ token id,
       bearer_token authorization = Some token → token ≠ "" →
       jwt_verify token = inr (Js.JStr id) → isValid id = false →
       authenticateToken jwt_verify authorization d
       = Refused (respond 500 (Failure "Token verification failed"))).
Proof.
  unfold authenticateToken. split; [|split; [|split]].
  - by intros ->.
  - intros token name -> Hne Hv. simpl. rewrite (eqb_empty_false _ Hne). simpl.
    by rewrite Hv.
  - intros token userId -> Hne Hv Hu. simpl. rewrite (eqb_empty_false _ Hne).
    simpl. rewrite Hv.
    destruct Hu as [-> | [-> | (id & -> & Hid & Hu)]]; [done..|].
    simpl. by rewrite Hid, Hu.
  - intros token id -> Hne Hv Hid. simpl. rewrite (eqb_empty_false _ Hne).
    simpl. rewrite Hv. simpl. by rewrite Hid.
Qed.

(** X25. Behind the middleware nothing happens without a credential that
    passes: when [authenticateToken] refuses, the guarded send and the
    guarded creation answer with the refusal (401, 404 or 500), store
    nothing and broadcast nothing. *)
Theorem refused_requests_change_nothing app_io env authorization cid content
    participantId postId d r :
  authenticateToken jwt_verify authorization d = Refused r →
  (status r = 401 ∨ status r = 404 ∨ status r = 500)
  ∧ guarded_post_message jwt_verify app_io env authorization cid content d
    = (r, d, [])
  ∧ guarded_create_conversation jwt_verify env authorization participantId postId d
    = (r, d).
Proof.
  intros H. unfold guarded_post_message, guarded_create_conversation.
  rewrite H. split; [|done].
  revert H. unfold authenticateToken, token_failure.
  destruct (no_token (bearer_token authorization)); [intros [= <-]; auto|].
  destruct (jwt_verify _) as [name|userId].
  { destruct (String.eqb name "JsonWebTokenError"); intros [= <-]; auto. }
  destruct (User_findById_value userId d) as [e|[u|]]; [|done|];
    intros [= <-]; auto.
Qed.

(** X26. The socket handshake and the REST middleware accept the same
    credentials: for a non-empty token without a space, the handshake admits
    a user exactly when [Authorization: Bearer <token>] passes the middleware
    with that user. The handshake reads the token from [auth] and falls back
    to [query] when [auth] has none; every failure is the one error
    "Authentication error". *)
Theorem handshake_matches_rest token fallback d :
  token ≠ "" → contains " " token = false →
  (∀ user, handshake jwt_verify (Some token) fallback d = inr user
           ↔ authenticateToken jwt_verify (Some ("Bearer " ++ token)) d
             = Passed user)
  ∧ handshake jwt_verify None (Some token) d
    = handshake jwt_verify (Some token) fallback d
  ∧ (∀ e, handshake jwt_verify (Some token) fallback d = inl e →
          e = "Authentication error").
Proof.
  intros Hne Hsp. unfold handshake, authenticateToken. cbv zeta.
  rewrite (bearer_token_of_header _ Hsp).
  change (no_token None) with true. cbv iota.
  rewrite !(no_token_some _ Hne). simpl default.
  destruct (jwt_verify token) as [name|userId].
  { split; [|split]; [by intros user; split | done | by intros e [= <-]]. }
  destruct (User_findById_value userId d) as [e|[u|]].
  - split; [|split]; [by intros user; split | done | by intros e' [= <-]].
  - split; [|split]; [|done|done].
    intros user. split; by intros [= ->].
  - split; [|split]; [by intros user; split | done | by intros e' [= <-]].
Qed.

(** X27. The admin router's middleware lets through only a stored user
    whose lower-cased email is the default admin address or one of the
    trimmed, lower-cased entries of [ADMIN_EMAILS]; a stored user with a good
    token who is neither is answered 403; and no refusal is ever a 404 or a
    500: a missing user, an expired token and a cast error are all 401. *)
Theorem authenticateAdmin_decides ADMIN_EMAILS authorization d :
  (∀ user, authenticateAdmin jwt_verify ADMIN_EMAILS authorization d = Passed user →
           user ∈ users d
           ∧ (toLowerCase (u_email user) = defaultAdminEmail
              ∨ toLowerCase (u_email user) ∈ adminEmails ADMIN_EMAILS))
  ∧ (∀ token id user,
       bearer_token authorization = Some token → token ≠ "" →
       jwt_verify token = inr (Js.JStr id) → isValid id = true →
       User_findById id d = Some user →
       authenticateAdmin jwt_verify ADMIN_EMAILS authorization d
       = if is_admin ADMIN_EMAILS user then Passed user
         else Refused (respond 403
                (Failure "Admin access required. Contact administrator for access.")))
  ∧ (∀ r, authenticateAdmin jwt_verify ADMIN_EMAILS authorization d = Refused r →
          status r = 401 ∨ status r = 403).
Proof.
  unfold authenticateAdmin, admin_failure. split; [|split].
  - intros user.
    destruct (no_token (bearer_token authorization)); [done|].
    destruct (jwt_verify _) as [name|userId]; [done|].
    destruct (User_findById_value userId d) as [e|[u|]] eqn:Hu; [done| |done].
    destruct (is_admin ADMIN_EMAILS u) eqn:Ha; [|done]. intros [= ->].
    apply User_findById_value_Some in Hu as (id & _ & _ & Hu).
    split; [by apply (User_findById_stored id d user)|].
    unfold is_admin in Ha. apply orb_true_iff in Ha as [Ha|Ha].
    + right. apply existsb_exists in Ha as (e & He & Heq).
      apply String.eqb_eq in Heq. rewrite Heq. by apply list_elem_of_In.
    + left. by apply String.eqb_eq.
  - intros token id user -> Hne Hv Hid Hu.
    rewrite (no_token_some _ Hne). simpl default. rewrite Hv.
    unfold User_findById_value. by rewrite Hid, Hu.
  - intros r.
    destruct (no_token (bearer_token authorization)); [intros [= <-]; auto|].
    destruct (jwt_verify _) as [name|userId].
    { destruct (String.eqb name "JsonWebTokenError"); intros [= <-]; auto. }
    destruct (User_findById_value userId d) as [e|[u|]];
      [intros [= <-]; auto| |intros [= <-]; auto].
    destruct (is_admin ADMIN_EMAILS u); [done|]. intros [= <-]. auto.
Qed.

End CredentialFacts.

Lemma authenticateToken_refusals_witness :
  authenticateToken demo_verify (Some "Bearer expired") store0
  = Refused (respond 500 (Failure "Token verification failed"))
  ∧ authenticateToken demo_verify (Some "Bearer forged") store0
    = Refused (respond 401 (Failure "Invalid token"))
  ∧ authenticateToken demo_verify (Some "Bearer 0000000000000000000000ff") store0
    = Refused (respond 404 (Failure "User not found. Please log in again."))
  ∧ authenticateToken demo_verify (Some "Bearer nobody") store0
    = Refused (respond 500 (Failure "Token verification failed")).
Proof.
  destruct (authenticateToken_refusals demo_verify (Some "Bearer expired") store0)
    as (_ & H1 & _).
  destruct (authenticateToken_refusals demo_verify (Some "Bearer forged") store0)
    as (_ & H2 & _).
  destruct (authenticateToken_refusals demo_verify
              (Some "Bearer 0000000000000000000000ff") store0)
    as (_ & _ & H3 & _).
  destruct (authenticateToken_refusals demo_verify (Some "Bearer nobody") store0)
    as (_ & _ & _ & H4).
  split; [|split; [|split]].
  - apply (H1 "expired" "TokenExpiredError"); [reflexivity|discriminate|reflexivity].
  - apply (H2 "forged" "JsonWebTokenError"); [reflexivity|discriminate|reflexivity].
  - apply (H3 "0000000000000000000000ff" (Js.JStr "0000000000000000000000ff"));
      [reflexivity|discriminate|reflexivity|].
    right. right. exists "0000000000000000000000ff".
    split; [reflexivity|]. split; reflexivity.
  - apply (H4 "nobody" "nobody"); [reflexivity|discriminate|reflexivity|reflexivity].
Defined.

Lemma authenticateAdmin_decides_witness :
  dave ∈ users staff_store
  ∧ (toLowerCase (u_email dave) = defaultAdminEmail
     ∨ toLowerCase (u_email dave) ∈ adminEmails None).
Proof.
  destruct (authenticateAdmin_decides demo_verify None
              (Some "Bearer dddddddddddddddddddddddd") staff_store) as (H & _).
  apply H. reflexivity.
Defined.

(** A token that carries Alice's id in capitals passes, with Alice. *)
Lemma authenticateToken_passes_stored_user_witness :
  authenticateToken demo_verify (Some "Bearer AAAAAAAAAAAAAAAAAAAAAAAA") store0
  = Passed alice
  ∧ ∃ token userId,
      bearer_token (Some "Bearer AAAAAAAAAAAAAAAAAAAAAAAA") = Some token
      ∧ token ≠ "" ∧ demo_verify token = inr userId ∧ alice ∈ users store0
      ∧ (∀ id, userId = Js.JStr id →
               isValid id = true ∧ User_findById id store0 = Some alice
               ∧ u_id alice = canonical id).
Proof.
  split; [reflexivity|].
  apply (authenticateToken_passes_stored_user demo_verify
           (Some "Bearer AAAAAAAAAAAAAAAAAAAAAAAA") store0 alice).
  reflexivity.
Defined.

Lemma refused_requests_change_nothing_witness :
  guarded_post_message demo_verify None env0 (Some "Bearer expired") room0
    (Js.JStr "Hello") store0
  = (respond 500 (Failure "Token verification failed"), store0, []).
Proof.
  apply (refused_requests_change_nothing demo_verify None env0
           (Some "Bearer expired") room0 (Js.JStr "Hello") None None store0
           (respond 500 (Failure "Token verification failed"))).
  reflexivity.
Defined.

Lemma handshake_matches_rest_witness :
  handshake demo_verify None (Some (u_id bob)) store0
  = handshake demo_verify (Some (u_id bob)) None store0.
Proof.
  apply (handshake_matches_rest demo_verify (u_id bob) None store0);
    [discriminate | reflexivity].
Defined.

(** Dave's email is the default admin address in another case; Erin is on
    the list in yet another; Alice is neither. *)
Example admin_examples :
  authenticateAdmin demo_verify (Some " erin@example.COM ,x@y.z")
    (Some "Bearer dddddddddddddddddddddddd") staff_store = Passed dave
  ∧ authenticateAdmin demo_verify (Some " erin@example.COM ,x@y.z")
      (Some "Bearer eeeeeeeeeeeeeeeeeeeeeeee") staff_store = Passed erin
  ∧ status match authenticateAdmin demo_verify (Some " erin@example.COM ,x@y.z")
                   (Some "Bearer aaaaaaaaaaaaaaaaaaaaaaaa") staff_store with
           | Refused r => r
           | Passed _ => respond 200 (Failure "")
           end = 403
  ∧ status match authenticateAdmin demo_verify None (Some "Bearer expired")
                   staff_store with
           | Refused r => r
           | Passed _ => respond 200 (Failure "")
           end = 401.
Proof. repeat split. Qed.

(** * How the operations compose *)



(** X29. Leaving stops delivery: after a connection has left a room, a send
    by another socket to the conversation of that name hands it nothing,
    whatever the payload's content. *)
Theorem left_socket_hears_nothing env sender sock cid content w :
  cid ≠ "" → sock_id sender ≠ sock_id sock →
  received (sock_id sock)
    (out_deliveries
       (on_message_send env sender (Some (Js.JStr cid, content))
          (on_conversation_leave sock (Js.JStr cid) w)))
  = [].
Proof.
  intros Hcid Hne.
  assert (sock_id sock
          ∉ room_members (io (on_conversation_leave sock (Js.JStr cid) w)) cid)
    as Hout.
  { unfold on_conversation_leave. simpl Js.truthy.
    rewrite (eqb_empty_false _ Hcid). cbn [negb io Js.toString].
    rewrite room_members_leave_at, decide_True by done. set_solver. }
  destruct (on_message_send_cases env sender (Js.JStr cid) content
              (on_conversation_leave sock (Js.JStr cid) w))
    as [-> | [[e ->] | (cid' & s & c & [= <-] & _ & _ & _ & _ & _ & ->)]];
    cbv zeta; cbn [out_deliveries]; [done| |].
  - by apply received_single_other.
  - by apply received_persist_outsider.
Qed.

Lemma left_socket_hears_nothing_witness :
  received "sock-bob"
    (out_deliveries
       (on_message_send env0 alice_socket (Some (Js.JStr room0, Js.JStr "Hello"))
          (on_conversation_leave bob_socket (Js.JStr room0) world0)))
  = [].
Proof.
  apply (left_socket_hears_nothing env0 alice_socket bob_socket room0
           (Js.JStr "Hello") world0); discriminate.
Defined.

Lemma Conversation_lookup_appended id c d :
  id ∉ conversation_ids d → conv_id c = id →
  List.find (fun x => String.eqb (conv_id x) id) (conversations d ++ [c])
  = Some c.
Proof.
  unfold conversation_ids. intros Hfresh Hid.
  induction (conversations d) as [|x l IH]; simpl.
  - by rewrite Hid, String.eqb_refl.
  - rewrite fmap_cons in Hfresh. apply not_elem_of_cons in Hfresh as [Hx Hl].
    destruct (String.eqb (conv_id x) id) eqn:E.
    + apply String.eqb_eq in E. by destruct Hx.
    + by apply IH.
Qed.

(** X30. A conversation can be used as soon as it is created: after a first
    contact that generated a well-formed id not yet in use, a send with
    non-blank content to the returned id succeeds with 201 for the caller and
    for the other participant alike. *)
Theorem first_contact_then_send app_io env env' user pid postId author s d :
  isValid pid = true → pid ≠ u_id user → is_Some (User_findById pid d) →
  Conversation_findOne_all (u_id user) pid d = None →
  isValid (fresh_id env) = true → fresh_id env ∉ conversation_ids d →
  u_id author = u_id user ∨ u_id author = pid → Js.trim s ≠ "" →
  returned_conversation (create_conversation env user (Some pid) postId d).1
  = Some (fresh_id env)
  ∧ status (post_message app_io env' author (fresh_id env) (Js.JStr s)
              (create_conversation env user (Some pid) postId d).2).1.1 = 201.
Proof.
  intros Hv Hne Hu Hnone Hfv Hfresh Hauthor Hs.
  destruct (create_first_contact env user pid postId d Hv Hne Hu Hnone)
    as (c & Hconv & _ & Hret & Hid & Hp & _).
  split; [by rewrite Hret, Hid|].
  assert (Conversation_lookup (fresh_id env)
            (create_conversation env user (Some pid) postId d).2 = Some c) as Hf.
  { unfold Conversation_lookup. rewrite Hconv, canonical_fresh_id.
    by apply Conversation_lookup_appended. }
  assert (isParticipant c (u_id author) = true) as Hmember.
  { unfold isParticipant. rewrite Hp. simpl.
    destruct Hauthor as [-> | Ha].
    - by rewrite String.eqb_refl.
    - rewrite <- Ha, canonical_u_id, String.eqb_refl. by rewrite orb_true_r. }
  by rewrite (rest_send_created _ _ c s author env' Hfv Hf Hmember Hs).
Qed.

Lemma first_contact_then_send_witness :
  status (post_message None env1 bob (fresh_id env0) (Js.JStr "Hi Alice")
            (create_conversation env0 alice (Some (u_id bob)) None empty_store).2).1.1
  = 201.
Proof.
  apply (first_contact_then_send None env0 env1 alice (u_id bob) None bob
           "Hi Alice" empty_store);
    [reflexivity | discriminate | by eexists | reflexivity | reflexivity
    | apply not_elem_of_nil | by right | vm_compute; discriminate].
Defined.
